(** * durex_scraper.py: a bounded breadth-first crawler

    Shallow embedding of [DUREX EXERCISE/durex_scraper.py] and of the
    parts of the Python 3.11 standard library it calls
    ([urllib.parse], [urllib.robotparser]).

    A Python [str] is modelled as [string].  The characters of a
    [string] are the code points 0..255, so the development covers the
    strs whose code points are below 256; on those [str.lower],
    [str.isspace] and the NFKC test of [_checknetloc] have the closed
    forms given below. *)

From Stdlib Require Import ZArith QArith Ascii String.
From stdpp Require Import gmap strings list sorting.

(** ** Python [str] primitives *)

Module Py.

Definition code (c : ascii) : N := N_of_ascii c.

Definition in_range (lo hi : N) (c : ascii) : bool :=
  ((lo <=? code c) && (code c <=? hi))%N.

(** [c.isascii()] *)
Definition isascii (c : ascii) : bool := (code c <? 128)%N.

(** [c.isalpha()] for an ASCII character *)
Definition isalpha (c : ascii) : bool :=
  in_range 65 90 c || in_range 97 122 c.

Definition isdigit (c : ascii) : bool := in_range 48 57 c.

(** [c.isspace()]: 0x09-0x0D, 0x1C-0x20, 0x85 and 0xA0 *)
Definition isspace (c : ascii) : bool :=
  in_range 9 13 c || in_range 28 32 c
  || (code c =? 133)%N || (code c =? 160)%N.

(** [c.lower()]: A-Z and the upper-case letters of Latin-1 (0xC0-0xDE
    without the multiplication sign 0xD7) move up by 0x20. *)
Definition lower_char (c : ascii) : ascii :=
  if in_range 65 90 c || (in_range 192 222 c && negb (code c =? 215)%N)
  then ascii_of_N (code c + 32) else c.

Fixpoint lower (s : string) : string :=
  match s with
  | EmptyString => EmptyString
  | String c s' => String (lower_char c) (lower s')
  end.

Fixpoint all_chars (p : ascii -> bool) (s : string) : bool :=
  match s with
  | EmptyString => true
  | String c s' => p c && all_chars p s'
  end.

(** [c in s] for a single character [c] *)
Fixpoint contains (c : ascii) (s : string) : bool :=
  match s with
  | EmptyString => false
  | String d s' => Ascii.eqb c d || contains c s'
  end.

(** [s.startswith(p)] *)
Fixpoint startswith (p s : string) : bool :=
  match p, s with
  | EmptyString, _ => true
  | String _ _, EmptyString => false
  | String a p', String b s' => Ascii.eqb a b && startswith p' s'
  end.

(** [s.endswith(suf)]: some suffix of [s] is [suf] *)
Fixpoint endswith (s suf : string) : bool :=
  String.eqb s suf ||
  match s with
  | EmptyString => false
  | String _ s' => endswith s' suf
  end.

(** [pat in s] *)
Fixpoint in_str (pat s : string) : bool :=
  startswith pat s ||
  match s with
  | EmptyString => false
  | String _ s' => in_str pat s'
  end.

(** [s.partition(c)]: the text before the first [c], whether [c] was
    found, the text after it.  With [i = s.find(c)] the three parts are
    [s[:i]], [i >= 0] and [s[i+1:]]; when [c in s] the outer parts are
    also the two items of [s.split(c, 1)]. *)
Fixpoint partition (c : ascii) (s : string) : string * bool * string :=
  match s with
  | EmptyString => (EmptyString, false, EmptyString)
  | String d s' =>
      if Ascii.eqb c d then (EmptyString, true, s')
      else match partition c s' with
           | (a, true, b) => (String d a, true, b)
           | (_, false, _) => (s, false, EmptyString)
           end
  end.

(** [s.rpartition(c)]: as [partition], at the last [c]; when [c] is
    missing the whole of [s] is the third part. *)
Fixpoint rpartition (c : ascii) (s : string) : string * bool * string :=
  match s with
  | EmptyString => (EmptyString, false, EmptyString)
  | String d s' =>
      match rpartition c s' with
      | (a, true, b) => (String d a, true, b)
      | (_, false, _) =>
          if Ascii.eqb c d then (EmptyString, true, s')
          else (EmptyString, false, s)
      end
  end.

(** [s.lstrip(chars)], with [chars] given as a predicate *)
Fixpoint lstrip (p : ascii -> bool) (s : string) : string :=
  match s with
  | EmptyString => EmptyString
  | String c s' => if p c then lstrip p s' else s
  end.

(** [s.rstrip(chars)] *)
Fixpoint rstrip (p : ascii -> bool) (s : string) : string :=
  match s with
  | EmptyString => EmptyString
  | String c s' =>
      match rstrip p s' with
      | EmptyString => if p c then EmptyString else String c EmptyString
      | t => String c t
      end
  end.

Definition strip (p : ascii -> bool) (s : string) : string :=
  rstrip p (lstrip p s).

(** the characters of [s] that do not satisfy [p], in order *)
Fixpoint remove_chars (p : ascii -> bool) (s : string) : string :=
  match s with
  | EmptyString => EmptyString
  | String c s' =>
      if p c then remove_chars p s' else String c (remove_chars p s')
  end.

Fixpoint drop (n : nat) (s : string) : string :=
  match n, s with
  | O, _ => s
  | S _, EmptyString => EmptyString
  | S n', String _ s' => drop n' s'
  end.

Fixpoint take (n : nat) (s : string) : string :=
  match n, s with
  | O, _ => EmptyString
  | S _, EmptyString => EmptyString
  | S n', String c s' => String c (take n' s')
  end.

(** [s[:-1]] *)
Definition drop_last (s : string) : string :=
  take (String.length s - 1) s.

(** [s.replace(old, new)] for a non-empty [old]: a scan from the left
    that rewrites each occurrence and resumes after it.  [skip] counts
    the characters of the current occurrence still to be passed. *)
Fixpoint replace_go (old new : string) (skip : nat) (s : string) : string :=
  match s with
  | EmptyString => EmptyString
  | String c s' =>
      match skip with
      | S k => replace_go old new k s'
      | O =>
          if startswith old s
          then new +:+ replace_go old new (String.length old - 1) s'
          else String c (replace_go old new O s')
      end
  end.

Definition replace (old new s : string) : string := replace_go old new O s.

(** [re.sub(r"\s+", " ", s)]: [in_run] tells that the previous
    character was white space, whose run already produced its space. *)
Fixpoint collapse_ws (in_run : bool) (s : string) : string :=
  match s with
  | EmptyString => EmptyString
  | String c s' =>
      if isspace c
      then if in_run then collapse_ws true s'
           else String " " (collapse_ws true s')
      else String c (collapse_ws false s')
  end.

End Py.

(** ** urllib.parse (CPython 3.11) *)

(** [ipaddress.ip_address] is not modelled; the one question
    [_check_bracketed_host] asks of it is taken as a parameter. *)
Class Ipaddress := {
  (** [ipaddress.ip_address(h)] returns an [IPv6Address] (it raises
      [ValueError] on a text that is no address, and the caller raises
      on an [IPv4Address]) *)
  is_IPv6Address : string -> bool
}.

Module Urllib.
Import Py.

Record SplitResult := mkSplit {
  s_scheme : string; s_netloc : string; s_url : string;
  s_query : string; s_fragment : string
}.

Record ParseResult := mkParse {
  scheme : string; netloc : string; path : string;
  params : string; query : string; fragment : string
}.

Definition uses_netloc : list string :=
  [""; "ftp"; "http"; "gopher"; "nntp"; "telnet";
   "imap"; "wais"; "file"; "mms"; "https"; "shttp";
   "snews"; "prospero"; "rtsp"; "rtspu"; "rsync";
   "svn"; "svn+ssh"; "sftp"; "nfs"; "git"; "git+ssh";
   "ws"; "wss"].

Definition uses_params : list string :=
  [""; "ftp"; "hdl"; "prospero"; "http"; "imap";
   "https"; "shttp"; "rtsp"; "rtspu"; "sip"; "sips";
   "mms"; "sftp"; "tel"].

Definition str_in (s : string) (l : list string) : bool :=
  existsb (String.eqb s) l.

(** [c in scheme_chars] *)
Definition scheme_chars (c : ascii) : bool :=
  in_range 97 122 c || in_range 65 90 c || isdigit c
  || Ascii.eqb c "+" || Ascii.eqb c "-" || Ascii.eqb c ".".

(** [c in _WHATWG_C0_CONTROL_OR_SPACE] *)
Definition WHATWG_C0_CONTROL_OR_SPACE (c : ascii) : bool :=
  (code c <=? 32)%N.

(** [c in _UNSAFE_URL_BYTES_TO_REMOVE] *)
Definition UNSAFE_URL_BYTES_TO_REMOVE (c : ascii) : bool :=
  Ascii.eqb c "009" || Ascii.eqb c "013" || Ascii.eqb c "010".

Definition netloc_delim (c : ascii) : bool :=
  Ascii.eqb c "/" || Ascii.eqb c "?" || Ascii.eqb c "#".

(** [_splitnetloc(url, 2)] applied to ["//" + s]: [s] is cut at its
    first ['/'], ['?'] or ['#']. *)
Fixpoint _splitnetloc (s : string) : string * string :=
  match s with
  | EmptyString => (EmptyString, EmptyString)
  | String c s' =>
      if netloc_delim c then (EmptyString, s)
      else let '(a, b) := _splitnetloc s' in (String c a, b)
  end.

Definition ishex (c : ascii) : bool :=
  isdigit c || in_range 97 102 c || in_range 65 70 c.

(** [re.match(r"\Av[a-fA-F0-9]+\..+\Z", hostname)] for a [hostname]
    that starts with ['v']; [rest] is the text after that ['v']. *)
Definition ipvfuture_rest (rest : string) : bool :=
  match partition "." rest with
  | (digits, true, tail) =>
      negb (String.eqb digits "") && all_chars ishex digits
      && negb (String.eqb tail "")
      && negb (contains "010" tail)
  | _ => false
  end.

(** [_check_bracketed_host]: [true] when it returns, [false] when it
    raises [ValueError]. *)
Definition _check_bracketed_host `{Ipaddress} (hostname : string) : bool :=
  match hostname with
  | String "v" rest => ipvfuture_rest rest
  | _ => is_IPv6Address hostname
  end.

(** [_check_bracketed_netloc]: [true] when it returns. *)
Definition _check_bracketed_netloc `{Ipaddress} (netloc : string) : bool :=
  let hostname_and_port := (rpartition "@" netloc).2 in
  match partition "[" hostname_and_port with
  | (before_bracket, true, bracketed) =>
      if negb (String.eqb before_bracket "") then false
      else
        let '(hostname, _, port) := partition "]" bracketed in
        if negb (String.eqb port "") && negb (startswith ":" port)
        then false
        else _check_bracketed_host hostname
  | (_, false, _) =>
      let '(hostname, _, _) := partition ":" hostname_and_port in
      _check_bracketed_host hostname
  end.

(** the two bracket tests of [urlsplit] on a netloc: [false] when
    one of them raises [ValueError]. *)
Definition brackets_ok `{Ipaddress} (netloc : string) : bool :=
  let lb := contains "[" netloc in
  let rb := contains "]" netloc in
  if (lb && negb rb) || (rb && negb lb) then false
  else if lb && rb then _check_bracketed_netloc netloc
  else true.

(** [_checknetloc]: on a non-ASCII [netloc] it raises when the NFKC
    form of the text brings in one of [/?#@:].  No code point below
    256 has such a form (the fractions of Latin-1 normalise with
    U+2044, not with ['/']), so on the strs modelled here it returns. *)
Definition _checknetloc (netloc : string) : bool := true.

(** [urlsplit(url)] with the default [scheme=''] and
    [allow_fragments=True]; [None] when it raises [ValueError]. *)
Definition urlsplit `{Ipaddress} (url : string) : option SplitResult :=
  let url := lstrip WHATWG_C0_CONTROL_OR_SPACE url in
  let url := remove_chars UNSAFE_URL_BYTES_TO_REMOVE url in
  let '(scheme, url) :=
    match partition ":" url with
    | (String c0 pre, true, rest) =>
        if isascii c0 && isalpha c0 && all_chars scheme_chars (String c0 pre)
        then (lower (String c0 pre), rest)
        else (EmptyString, url)
    | _ => (EmptyString, url)
    end in
  match
    if startswith "//" url then
      let '(netloc, rest) := _splitnetloc (drop 2 url) in
      if brackets_ok netloc then Some (netloc, rest) else None
    else Some (EmptyString, url)
  with
  | None => None
  | Some (netloc, url) =>
  let '(url, fragment) :=
    match partition "#" url with
    | (a, true, b) => (a, b)
    | _ => (url, EmptyString)
    end in
  let '(url, query) :=
    match partition "?" url with
    | (a, true, b) => (a, b)
    | _ => (url, EmptyString)
    end in
  if negb (_checknetloc netloc) then None else
  Some (mkSplit scheme netloc url query fragment)
  end.

(** [_splitparams] *)
Definition _splitparams (url : string) : string * string :=
  if contains "/" url then
    match rpartition "/" url with
    | (head, _, last) =>
        match partition ";" last with
        | (a, true, b) => (head +:+ String "/" a, b)
        | _ => (url, EmptyString)
        end
    end
  else
    match partition ";" url with
    | (a, true, b) => (a, b)
    | _ => (drop_last url, url)
    end.

(** [urlparse(url)] *)
Definition urlparse `{Ipaddress} (url : string) : option ParseResult :=
  match urlsplit url with
  | None => None
  | Some r =>
      let '(url, params) :=
        if str_in (s_scheme r) uses_params && contains ";" (s_url r)
        then _splitparams (s_url r)
        else (s_url r, EmptyString) in
      Some (mkParse (s_scheme r) (s_netloc r) url params
                    (s_query r) (s_fragment r))
  end.

(** [urlunsplit] *)
Definition urlunsplit (scheme netloc url query fragment : string) : string :=
  let url :=
    if negb (String.eqb netloc "")
       || (negb (String.eqb scheme "") && str_in scheme uses_netloc
           && negb (startswith "//" url))
    then
      let url :=
        if negb (String.eqb url "") && negb (startswith "/" url)
        then String "/" url else url in
      "//" +:+ netloc +:+ url
    else url in
  let url :=
    if negb (String.eqb scheme "") then scheme +:+ String ":" url else url in
  let url :=
    if negb (String.eqb query "") then url +:+ String "?" query else url in
  if negb (String.eqb fragment "") then url +:+ String "#" fragment else url.

(** [urlunparse] *)
Definition urlunparse (p : ParseResult) : string :=
  let url :=
    if negb (String.eqb (params p) "")
    then path p +:+ String ";" (params p) else path p in
  urlunsplit (scheme p) (netloc p) url (query p) (fragment p).

(** [p.geturl()] *)
Definition geturl (p : ParseResult) : string := urlunparse p.

(** [p._replace(fragment=f)] *)
Definition replace_fragment (p : ParseResult) (f : string) : ParseResult :=
  mkParse (scheme p) (netloc p) (path p) (params p) (query p) f.

End Urllib.

(** ** The scraper: URL filter and domain scope *)

Import Py Urllib.

(** [SKIP_EXTENSIONS]: a set in the source, only ever enumerated by
    [any], for which the order of enumeration is immaterial. *)
Definition SKIP_EXTENSIONS : list string :=
  [".pdf"; ".jpg"; ".jpeg"; ".png"; ".gif"; ".webp"; ".svg";
   ".zip"; ".rar"; ".7z"; ".mp4"; ".webm"; ".mp3"; ".avi";
   ".doc"; ".docx"; ".xls"; ".xlsx"; ".ppt"; ".pptx"].

(** [normalize_text(text)], for a [text] that is not [None] *)
Definition normalize_text (text : string) : string :=
  strip isspace (collapse_ws false text).

(** [clean_url(url)]; [None] when [urlparse] raises [ValueError]. *)
Definition clean_url `{Ipaddress} (url : string) : option string :=
  match urlparse url with
  | None => None
  | Some parsed =>
      if String.eqb (scheme parsed) "" || String.eqb (netloc parsed) ""
      then Some ""
      else if negb (str_in (scheme parsed) ["http"; "https"])
      then Some ""
      else if existsb (endswith (lower (path parsed))) SKIP_EXTENSIONS
      then Some ""
      else Some (geturl (replace_fragment parsed ""))
  end.

(** [same_domain(url, base_domain)] *)
Definition same_domain `{Ipaddress} (url base_domain : string) : option bool :=
  match urlparse url with
  | None => None
  | Some parsed =>
      let netloc := lower (netloc parsed) in
      Some (String.eqb netloc base_domain
            || endswith netloc (String "." base_domain))
  end.

(** line 108 of [crawl_site]:
    [urlparse(base_url).netloc.replace("www.", "").lower()] *)
Definition base_domain_of `{Ipaddress} (base_url : string) : option string :=
  match urlparse base_url with
  | None => None
  | Some parsed => Some (lower (replace "www." "" (netloc parsed)))
  end.

(** ** urllib.robotparser (CPython 3.11) *)

Module Robotparser.

(** The state of a [RobotFileParser].  [entries] stands for the parsed
    rules ([entries] and [default_entry]): the verdict they give to a
    user agent and a URL, [None] when evaluating it raises (the
    [urlparse] call of [can_fetch]). *)
Record RobotFileParser := mkRobots {
  url : string;
  host : string;
  path : string;
  disallow_all : bool;
  allow_all : bool;
  last_checked : Q;
  entries : string -> string -> option bool
}.

(** [RobotFileParser()]: no entry, so the rules alone would grant
    every agent ("agent not found ==> access granted"). *)
Definition init : RobotFileParser :=
  mkRobots "" "" "" false false 0 (fun _ _ => Some true).

(** [rp.set_url(url)]: the [url] attribute is assigned before
    [urlparse] can raise; the flag tells whether the call returned. *)
Definition set_url `{Ipaddress} (rp : RobotFileParser) (u : string)
  : RobotFileParser * bool :=
  let rp1 := mkRobots u (host rp) (path rp) (disallow_all rp)
               (allow_all rp) (last_checked rp) (entries rp) in
  match Urllib.urlparse u with
  | None => (rp1, false)
  | Some p =>
      (mkRobots u (Urllib.netloc p) (Urllib.path p) (disallow_all rp)
         (allow_all rp) (last_checked rp) (entries rp), true)
  end.

(** What [urllib.request.urlopen(self.url)] followed by [f.read()] and
    the decoding can do. *)
Inductive urlopen_result :=
| HTTPError (code : Z)
    (** [urlopen] raised [urllib.error.HTTPError] *)
| OtherError
    (** any other exception: [URLError] (no route, refused, DNS),
        a timeout, a [UnicodeDecodeError] of the body *)
| Fetched (now : Q) (rules : string -> string -> option bool)
    (** the body was read and parsed at time [now] into [rules] *).

(** [rp.read()]; the flag tells whether the call returned. *)
Definition read (rp : RobotFileParser) (r : urlopen_result)
  : RobotFileParser * bool :=
  match r with
  | HTTPError code =>
      if (code =? 401)%Z || (code =? 403)%Z then
        (mkRobots (url rp) (host rp) (path rp) true (allow_all rp)
           (last_checked rp) (entries rp), true)
      else if (400 <=? code)%Z && (code <? 500)%Z then
        (mkRobots (url rp) (host rp) (path rp) (disallow_all rp) true
           (last_checked rp) (entries rp), true)
      else (rp, true)
  | OtherError => (rp, false)
  | Fetched now rules =>
      (mkRobots (url rp) (host rp) (path rp) (disallow_all rp)
         (allow_all rp) now rules, true)
  end.

(** [rp.can_fetch(useragent, url)] *)
Definition can_fetch (rp : RobotFileParser) (useragent u : string)
  : option bool :=
  if disallow_all rp then Some false
  else if allow_all rp then Some true
  else if Qeq_bool (last_checked rp) 0 then Some false
  else entries rp useragent u.

End Robotparser.

(** [build_robot_parser(base_url)], given what opening a robots URL
    does; [None] when the first [urlparse] raises. *)
Definition build_robot_parser `{Ipaddress}
    (urlopen : string -> Robotparser.urlopen_result) (base_url : string)
  : option Robotparser.RobotFileParser :=
  match urlparse base_url with
  | None => None
  | Some parsed =>
      let robots_url := scheme parsed +:+ "://" +:+ netloc parsed +:+ "/robots.txt" in
      let rp := Robotparser.init in
      match Robotparser.set_url rp robots_url with
      | (rp, false) => Some rp
      | (rp, true) => Some (Robotparser.read rp (urlopen robots_url)).1
      end
  end.

(** ** The parsed document (bs4) *)

Module Bs4.

(** A document tree as BeautifulSoup hands it out: text nodes and
    tags with their attribute dictionary and children.  A soup is the
    list of the children of its root. *)
#[local] Set Warnings "-register-all".
Inductive node :=
| NavigableString (s : string)
| Tag (name : string) (attrs : gmap string string) (contents : list node).

Definition soup := list node.

(** The tags named in [names], with all below them, are taken out:
    [for tag in soup(names): tag.decompose()]. *)
Fixpoint decompose_node (names : list string) (n : node) : option node :=
  match n with
  | NavigableString _ => Some n
  | Tag nm at_ cs =>
      if Urllib.str_in nm names then None
      else Some (Tag nm at_ (omap (decompose_node names) cs))
  end.

Definition decompose_all (names : list string) (s : soup) : soup :=
  omap (decompose_node names) s.

(** all nodes below the root, in document order *)
Fixpoint descendants_node (n : node) : list node :=
  match n with
  | NavigableString _ => [n]
  | Tag _ _ cs => n :: flat_map descendants_node cs
  end.

Definition descendants (s : soup) : list node :=
  flat_map descendants_node s.

Definition is_tag (p : string -> gmap string string -> bool) (n : node) : bool :=
  match n with
  | NavigableString _ => false
  | Tag nm at_ _ => p nm at_
  end.

(** [soup.find_all(...)] and [soup.find(...)] for a test on the name
    and the attributes of a tag *)
Definition find_all (p : string -> gmap string string -> bool) (s : soup) : list node :=
  List.filter (is_tag p) (descendants s).

Definition find (p : string -> gmap string string -> bool) (s : soup) : option node :=
  head (find_all p s).

Definition named (nm : string) : string -> gmap string string -> bool :=
  fun n _ => String.eqb n nm.

Definition named_any (nms : list string) : string -> gmap string string -> bool :=
  fun n _ => Urllib.str_in n nms.

(** [find("meta", attrs={k: v})] *)
Definition named_with (nm k v : string) : string -> gmap string string -> bool :=
  fun n at_ => String.eqb n nm && bool_decide (at_ !! k = Some v).

(** [find_all("a", href=True)] *)
Definition named_having (nm k : string) : string -> gmap string string -> bool :=
  fun n at_ => String.eqb n nm && bool_decide (is_Some (at_ !! k)).

(** [tag.get(k)] *)
Definition get (n : node) (k : string) : option string :=
  match n with
  | NavigableString _ => None
  | Tag _ at_ _ => at_ !! k
  end.

Definition strings_of (n : node) : list string :=
  flat_map (fun d => match d with NavigableString s => [s] | Tag _ _ _ => [] end)
    (descendants_node n).

Fixpoint join (sep : string) (l : list string) : string :=
  match l with
  | [] => ""
  | [s] => s
  | s :: l' => s +:+ sep +:+ join sep l'
  end.

(** [tag.get_text(sep)] *)
Definition get_text (sep : string) (n : node) : string :=
  join sep (strings_of n).

End Bs4.

(** ** The scraper: extraction *)

(** The dictionary returned by [extract_content]. *)
Record Content := mkContent {
  title : string;
  meta_description : string;
  h1 : string;
  content_snippet : string;
  content_length : Z;
  score : Z
}.

Definition BOILERPLATE : list string :=
  ["script"; "style"; "nav"; "footer"; "header"; "aside"; "noscript"].

(** an attribute value that is a non-empty str: [tag.get(k)] is truthy *)
Definition truthy (o : option string) : bool :=
  match o with
  | Some s => negb (String.eqb s "")
  | None => false
  end.

Definition len (s : string) : Z := Z.of_nat (String.length s).

(** [t and t.get("content")] for the result [t] of a [find] *)
Definition has_content (t : option Bs4.node) : bool :=
  match t with
  | Some m => truthy (Bs4.get m "content")
  | None => false
  end.

Definition content_of (t : option Bs4.node) : string :=
  match t with
  | Some m => default "" (Bs4.get m "content")
  | None => ""
  end.

(** lines 66-73 of [extract_content] *)
Definition extract_meta_desc (soup : Bs4.soup) : string :=
  let meta := Bs4.find (Bs4.named_with "meta" "name" "description") soup in
  if has_content meta then normalize_text (content_of meta)
  else
    let og := Bs4.find (Bs4.named_with "meta" "property" "og:description") soup in
    if has_content og then normalize_text (content_of og)
    else "".

(** [extract_content(soup)].  The call empties the boilerplate tags out
    of the caller's [soup]; the changed soup is returned with the data. *)
Definition extract_content (soup0 : Bs4.soup) : Content * Bs4.soup :=
  let soup := Bs4.decompose_all BOILERPLATE soup0 in
  let title :=
    match Bs4.find (Bs4.named "title") soup with
    | Some t => normalize_text (Bs4.get_text "" t)
    | None => ""
    end in
  let meta_desc := extract_meta_desc soup in
  let h1 :=
    match Bs4.find (Bs4.named "h1") soup with
    | Some t => normalize_text (Bs4.get_text "" t)
    | None => ""
    end in
  let main :=
    match Bs4.find (Bs4.named "main") soup with
    | Some m => Some m
    | None =>
        match Bs4.find (Bs4.named "article") soup with
        | Some m => Some m
        | None => Bs4.find (Bs4.named "body") soup
        end
    end in
  let content_text :=
    match main with
    | Some m => normalize_text (Bs4.get_text " " m)
    | None => ""
    end in
  let h_count := Z.of_nat (length (Bs4.find_all (Bs4.named_any ["h1"; "h2"; "h3"]) soup)) in
  let content_length := len content_text in
  let score := (content_length + (h_count * 80) + (len meta_desc * 2))%Z in
  let snippet :=
    take 240 content_text +:+ (if (240 <? len content_text)%Z then "..." else "") in
  (mkContent title meta_desc h1 snippet content_length score, soup).

(** ** The scraper: the crawl loop *)

(** One row of the result list: the extracted data with its ["url"]. *)
Record PageRecord := mkPage {
  data : Content;
  url : string
}.

(** What [session.get(url, timeout=15)] hands back. *)
Record Response := mkResponse {
  status_code : Z;
  content_type : option string;   (** the [Content-Type] header, if any *)
  text_soup : Bs4.soup            (** [BeautifulSoup(resp.text, "html.parser")] *)
}.

Inductive get_result :=
| RequestException          (** timeout, connection error, ... *)
| Got (resp : Response).

(** The surroundings of a run.  [session_get n u] is the outcome of
    requesting [u] when [n] events have happened so far, so that a site
    may answer differently over time.  [urljoin] is the standard
    library's, [None] when it raises [ValueError]. *)
Class World := {
  urlopen : string -> Robotparser.urlopen_result;
  session_get : nat -> string -> get_result;
  urljoin : string -> string -> option string
}.

Inductive event :=
| EFetch (u : string)     (** [session.get(u, ...)] was called *)
| ESleep (delay : Q).     (** [time.sleep(delay)] was called *)

Record state := mkState {
  visited : gset string;
  queue : list string;
  results : list PageRecord;
  trace : list event
}.

(** The fixed arguments of the loop. *)
Record config := mkConfig {
  max_pages : Z;
  delay : Q;
  base_domain : string;
  rp : Robotparser.RobotFileParser
}.

(** What one pass over the loop header and body does. *)
Inductive step :=
| Exit                  (** the [while] test failed *)
| Continue (st : state) (** the body ran to its end or to a [continue] *)
| Raise (st : state).   (** an exception left [crawl_site] *)

(** lines 142-149: the anchors are visited in document order; each one
    may append its target to the queue.  The result carries the queue
    reached and whether the loop ran to its end ([false]: [urljoin],
    [clean_url] or [same_domain] raised at some anchor). *)
Fixpoint enqueue_links `{Ipaddress} `{World}
    (bd : string) (vis : gset string) (page_url : string)
    (hrefs : list string) (q : list string) : list string * bool :=
  match hrefs with
  | [] => (q, true)
  | a :: rest =>
      match urljoin page_url a with
      | None => (q, false)
      | Some joined =>
          match clean_url joined with
          | None => (q, false)
          | Some href =>
              if String.eqb href "" then enqueue_links bd vis page_url rest q
              else
                match same_domain href bd with
                | None => (q, false)
                | Some false => enqueue_links bd vis page_url rest q
                | Some true =>
                    if bool_decide (href ∈ vis)
                    then enqueue_links bd vis page_url rest q
                    else enqueue_links bd vis page_url rest (q ++ [href])
                end
          end
      end
  end.

(** [a["href"]] for each [a] of [soup.find_all("a", href=True)] *)
Definition anchor_hrefs (soup : Bs4.soup) : list string :=
  omap (fun a => Bs4.get a "href") (Bs4.find_all (Bs4.named_having "a" "href") soup).

(** ["text/html" not in content_type] *)
Definition not_html (ct : option string) : bool :=
  negb (in_str "text/html" (default "" ct)).

(** lines 115-155: the loop test and one run of the body. *)
Definition iteration `{Ipaddress} `{World} (c : config) (st : state) : step :=
  match queue st with
  | [] => Exit
  | url0 :: q =>
      if negb (Z.of_nat (size (visited st)) <? max_pages c)%Z then Exit
      else
        match clean_url url0 with
        | None => Raise (mkState (visited st) q (results st) (trace st))
        | Some url =>
            if String.eqb url "" || bool_decide (url ∈ visited st)
            then Continue (mkState (visited st) q (results st) (trace st))
            else
              match Robotparser.can_fetch (rp c) "*" url with
              | None => Raise (mkState (visited st) q (results st) (trace st))
              | Some false =>
                  Continue (mkState ({[url]} ∪ visited st) q (results st) (trace st))
              | Some true =>
                  let tr := trace st ++ [EFetch url] in
                  match session_get (length (trace st)) url with
                  | RequestException =>
                      Continue (mkState ({[url]} ∪ visited st) q (results st) tr)
                  | Got resp =>
                      if negb (status_code resp =? 200)%Z
                      then Continue (mkState ({[url]} ∪ visited st) q (results st) tr)
                      else if not_html (content_type resp)
                      then Continue (mkState ({[url]} ∪ visited st) q (results st) tr)
                      else
                        let '(d, soup) := extract_content (text_soup resp) in
                        let res := results st ++ [mkPage d url] in
                        match enqueue_links (base_domain c) (visited st) url
                                (anchor_hrefs soup) q with
                        | (q', false) => Raise (mkState (visited st) q' res tr)
                        | (q', true) =>
                            Continue (mkState ({[url]} ∪ visited st) q' res
                                        (tr ++ [ESleep (delay c)]))
                        end
                  end
              end
        end
  end.

(** How a run of [crawl_site] ends. *)
Inductive outcome :=
| Returned (st : state)   (** [return results], with the state reached *)
| Raised (st : state)     (** an exception left the function *)
| OutOfFuel.              (** the bound on iterations of the model ran out *)

(** The [while] loop, run for at most [fuel] iterations. *)
Fixpoint crawl_loop `{Ipaddress} `{World} (fuel : nat) (c : config) (st : state) : outcome :=
  match fuel with
  | O => OutOfFuel
  | S fuel' =>
      match iteration c st with
      | Exit => Returned st
      | Raise st' => Raised st'
      | Continue st' => crawl_loop fuel' c st'
      end
  end.

Definition initial_state (base_url : string) : state :=
  mkState ∅ [base_url] [] [].

(** lines 108-109: [None] when [urlparse] raises on the base URL. *)
Definition setup `{Ipaddress} `{World} (base_url : string) (max_pages : Z) (delay : Q)
  : option config :=
  match base_domain_of base_url, build_robot_parser urlopen base_url with
  | Some bd, Some rp => Some (mkConfig max_pages delay bd rp)
  | _, _ => None
  end.

(** [crawl_site(base_url, max_pages, delay)] *)
Definition crawl_site `{Ipaddress} `{World} (fuel : nat)
    (base_url : string) (max_pages : Z) (delay : Q) : outcome :=
  match setup base_url max_pages delay with
  | None => Raised (initial_state base_url)
  | Some c => crawl_loop fuel c (initial_state base_url)
  end.

(** * Notions used in the statements *)

Definition safe (c : ascii) : bool := negb (UNSAFE_URL_BYTES_TO_REMOVE c).
Definition nondelim (c : ascii) : bool := negb (netloc_delim c).

(** the query with its mark, as [urlunsplit] appends it *)
Definition qpart (q : string) : string :=
  if String.eqb q "" then "" else String "?" q.

(** the text after a netloc: empty, or opened by a delimiter *)
Definition delimited (b : string) : bool :=
  match b with
  | "" => true
  | String c _ => netloc_delim c
  end.

(** the parameters with their mark, as [urlunparse] appends them *)
Definition with_params (pa pr : string) : string :=
  if negb (String.eqb pr "") then pa +:+ String ";" pr else pa.

(** lines 395-398 of [urlparse], for a scheme that uses parameters *)
Definition split_params (url0 : string) : string * string :=
  if contains ";" url0 then _splitparams url0 else (url0, "").

Definition web_scheme (sch : string) : Prop := sch = "http" \/ sch = "https".

(** the tests of lines 33-37 of [clean_url] *)
Definition rejected (p : ParseResult) : Prop :=
  scheme p = "" \/ netloc p = ""
  \/ (scheme p <> "http" /\ scheme p <> "https")
  \/ exists ext, ext ∈ SKIP_EXTENSIONS /\ endswith (lower (path p)) ext = true.

(** [h_count]: the headings left in the soup after extraction *)
Definition h_count (soup : Bs4.soup) : Z :=
  Z.of_nat (length (Bs4.find_all (Bs4.named_any ["h1"; "h2"; "h3"]) soup)).

(** the og branch of lines 70-73 *)
Definition og_fallback (soup : Bs4.soup) : string :=
  let og := Bs4.find (Bs4.named_with "meta" "property" "og:description") soup in
  if has_content og then normalize_text (content_of og) else "".

(** the URLs requested so far, oldest first *)
Definition fetched (tr : list event) : list string :=
  omap (fun e => match e with EFetch u => Some u | ESleep _ => None end) tr.

(** lines 127-134 and 153: the outcomes of [session.get] after which the
    body marks the URL visited and goes on *)
Definition fetch_failed (g : get_result) : bool :=
  match g with
  | RequestException => true
  | Got resp => negb (status_code resp =? 200)%Z || not_html (content_type resp)
  end.

(** The states at the head of the loop during a run. *)
Inductive reachable `{Ipaddress} `{World} (c : config) : state -> Prop :=
| reach_init base_url : reachable c (initial_state base_url)
| reach_step st st' :
    reachable c st -> iteration c st = Continue st' -> reachable c st'.

(** What the loop keeps true of the records and the requests. *)
Record crawl_inv (st : state) : Prop := mkInv {
  inv_records : NoDup (map url (results st));
  inv_records_visited : forall u, u ∈ map url (results st) -> u ∈ visited st;
  inv_fetched : NoDup (fetched (trace st));
  inv_fetched_visited : forall u, u ∈ fetched (trace st) -> u ∈ visited st
}.

(** ** Readings of the specification and sample sites *)

(** An [ipaddress] that takes no text for an IPv6 address.  The examples
    below have no bracketed host, so it is never consulted there. *)
Definition no_ipv6 : Ipaddress := {| is_IPv6Address := fun _ => false |}.


(** The reading of section 4.3, step 3: the content of the description
    tag whenever that tag is there, else of the og tag whenever that one
    is there, else nothing. *)
Definition spec_meta_description (soup : Bs4.soup) : string :=
  match Bs4.find (Bs4.named_with "meta" "name" "description") soup with
  | Some m => normalize_text (content_of (Some m))
  | None =>
      match Bs4.find (Bs4.named_with "meta" "property" "og:description") soup with
      | Some og => normalize_text (content_of (Some og))
      | None => ""
      end
  end.

(** The reading of section 4.5, step 10: no request follows another
    without a sleep in between. *)
Fixpoint sleeps_between_fetches (tr : list event) : bool :=
  match tr with
  | EFetch _ :: ((EFetch _ :: _) as tr') => false
  | _ :: tr' => sleeps_between_fetches tr'
  | [] => true
  end.

Fixpoint filler (n : nat) : string :=
  match n with
  | O => ""
  | S n' => String "x" (filler n')
  end.

Definition anchor (href : string) : Bs4.node :=
  Bs4.Tag "a" {["href" := href]} [].

(** a page with a title, a description, a heading and some links *)
Definition page (links : list string) : Bs4.soup :=
  [Bs4.Tag "html" ∅
     [Bs4.Tag "head" ∅
        [Bs4.Tag "title" ∅ [Bs4.NavigableString "  Site   title "];
         Bs4.Tag "meta" {["name" := "description"; "content" := "about  the site"]} []];
      Bs4.Tag "body" ∅
        (Bs4.Tag "h1" ∅ [Bs4.NavigableString "Welcome"] :: map anchor links)]].

(** a page of 500 characters of text under three headings, with a
    description of 50 characters *)
Definition page_840 : Bs4.soup :=
  [Bs4.Tag "html" ∅
     [Bs4.Tag "head" ∅
        [Bs4.Tag "meta" {["name" := "description"; "content" := filler 50]} []];
      Bs4.Tag "body" ∅
        [Bs4.Tag "h1" ∅ [Bs4.NavigableString "a"];
         Bs4.Tag "h2" ∅ [Bs4.NavigableString "b"];
         Bs4.Tag "h3" ∅ [Bs4.NavigableString "c"];
         Bs4.Tag "p" ∅ [Bs4.NavigableString (filler 494)]]]].

(** a description tag without content beside an og tag with content *)
Definition page_og : Bs4.soup :=
  [Bs4.Tag "head" ∅
     [Bs4.Tag "meta" {["name" := "description"; "content" := ""]} [];
      Bs4.Tag "meta" {["property" := "og:description"; "content" := " from   og "]} []]].

(** A site of three pages: the home page links to [/a], [/b], an image
    and itself; [/a] answers 404; [/b] links back to [/a].  Its
    robots.txt is missing (404), which allows everything. *)
Definition site_test : World := {|
  urlopen := fun _ => Robotparser.HTTPError 404;
  session_get := fun _ u =>
    if String.eqb u "http://site.test/" then
      Got (mkResponse 200 (Some "text/html; charset=utf-8")
             (page ["http://site.test/a"; "http://site.test/b";
                    "http://site.test/logo.png"; "http://site.test/"]))
    else if String.eqb u "http://site.test/a" then
      Got (mkResponse 404 (Some "text/html") [])
    else Got (mkResponse 200 (Some "text/html") (page ["http://site.test/a"]));
  urljoin := fun _ href => Some href
|}.

(** The same site with an unreachable robots.txt. *)
Definition site_robots_down : World := {|
  urlopen := fun _ => Robotparser.OtherError;
  session_get := @session_get site_test;
  urljoin := @urljoin site_test
|}.


Definition config_test : config :=
  mkConfig 5 (1 # 2) "site.test"
    (Robotparser.mkRobots "http://site.test/robots.txt" "site.test" "/robots.txt"
       false true 0 (fun _ _ => Some true)).

(** the state after one more iteration, when there is one *)
Definition next_state `{Ipaddress} `{World} (c : config) (st : state) : state :=
  match iteration c st with
  | Continue st' => st'
  | _ => st
  end.

(** the state a run returns, when it returns *)
Definition final_state (o : outcome) : state :=
  match o with
  | Returned st => st
  | _ => initial_state ""
  end.

(** ** The scraper: the report *)

(** One step of a stable sort by descending score: [x], which stood
    before every row of [l], goes in front of the first row whose score
    is not above its own. *)
Fixpoint insert_by_score (x : PageRecord) (l : list PageRecord) : list PageRecord :=
  match l with
  | [] => [x]
  | y :: l' =>
      if (score (data x) <? score (data y))%Z
      then y :: insert_by_score x l'
      else x :: l
  end.

(** [sorted(rows, key=lambda x: x["score"], reverse=True)].  Python's
    sort is stable, also under [reverse=True]: rows of equal score keep
    their order.  Only one list meets that description (see
    [sorted_by_score_unique]); it is computed here by insertion. *)
Definition sorted_by_score (rows : list PageRecord) : list PageRecord :=
  foldr insert_by_score [] rows.

(** [l[:n]] for an integer [n]: a negative [n] counts from the end. *)
Definition slice_to {A} (n : Z) (l : list A) : list A :=
  if (n <? 0)%Z
  then firstn (Z.to_nat (Z.of_nat (length l) + n)) l
  else firstn (Z.to_nat n) l.

(** lines 162-163 of [save_csv]: the rows handed to
    [writer.writerows], below the header row. *)
Definition save_csv_rows (rows : list PageRecord) (top_n : Z) : list PageRecord :=
  let rows_sorted := sorted_by_score rows in
  if negb (top_n =? 0)%Z then slice_to top_n rows_sorted else rows_sorted.

(** What [main] does with the rows that [crawl_site] returned. *)
Inductive report :=
| NothingProcessed
    (** prints that no page was processed; no file is written *)
| CsvWritten (rows : list PageRecord) (announced : Z).
    (** writes [rows] and prints that [announced] pages were saved *)

(** lines 189-195 of [main] *)
Definition main_report (rows : list PageRecord) (top : Z) : report :=
  match rows with
  | [] => NothingProcessed
  | _ => CsvWritten (save_csv_rows rows top)
           (Z.min top (Z.of_nat (length rows)))
  end.

(** ** Further notions used in the statements *)

(** Every white-space character of [s] is a space that follows no
    other space, nor the start of the text when [after_space] holds. *)
Fixpoint collapsed (after_space : bool) (s : string) : bool :=
  match s with
  | EmptyString => true
  | String c s' =>
      if isspace c
      then Ascii.eqb c " " && negb after_space && collapsed true s'
      else collapsed false s'
  end.

Fixpoint ends_with_space (s : string) : bool :=
  match s with
  | EmptyString => false
  | String c EmptyString => isspace c
  | String _ s' => ends_with_space s'
  end.

(** A text in the form [normalize_text] aims at: single spaces only,
    none at either end. *)
Definition normalized (s : string) : bool :=
  collapsed true s && negb (ends_with_space s).

(** rows in descending order of score *)
Definition by_score_desc (a b : PageRecord) : Prop :=
  (score (data b) <= score (data a))%Z.

(** the rows of [l] whose score is [k], in order *)
Definition with_score (k : Z) (l : list PageRecord) : list PageRecord :=
  List.filter (fun r => (score (data r) =? k)%Z) l.

(** the number of calls of [time.sleep] *)
Definition sleeps (tr : list event) : nat :=
  length (List.filter (fun e => match e with ESleep _ => true | EFetch _ => false end) tr).

(** [u] is a URL as [clean_url] returns them, inside the base domain *)
Definition in_scope `{Ipaddress} (bd u : string) : Prop :=
  u <> "" /\ clean_url u = Some u /\ same_domain u bd = Some true.

(** the URL that [build_robot_parser] opens *)
Definition robots_url (p : ParseResult) : string :=
  scheme p +:+ "://" +:+ netloc p +:+ "/robots.txt".

(** one iteration of the loop leads from [st] to [st'] *)
Definition next `{Ipaddress} `{World} (c : config) (st st' : state) : Prop :=
  iteration c st = Continue st'.

(** a reading of a node that looks at its name and attributes only *)
Definition shallow {B} (g : Bs4.node -> option B) : Prop :=
  forall nm at_ cs cs', g (Bs4.Tag nm at_ cs) = g (Bs4.Tag nm at_ cs').

(** two rows for the examples: a poor one found first, a rich one found
    second *)
Definition row_low : PageRecord := mkPage (mkContent "" "" "" "" 1 1) "http://site.test/a".
Definition row_high : PageRecord := mkPage (mkContent "" "" "" "" 9 9) "http://site.test/b".

(** lines 489-495 of [urlsplit]: the scheme and what follows it *)
Definition scheme_stage (url : string) : string * string :=
  match partition ":" url with
  | (String c0 pre, true, rest) =>
      if isascii c0 && isalpha c0 && all_chars scheme_chars (String c0 pre)
      then (lower (String c0 pre), rest)
      else ("", url)
  | _ => ("", url)
  end.

(** lines 496-502 of [urlsplit]: the netloc and what follows it *)
Definition netloc_stage `{Ipaddress} (url : string) : option (string * string) :=
  if startswith "//" url then
    let '(netloc, rest) := _splitnetloc (drop 2 url) in
    if brackets_ok netloc then Some (netloc, rest) else None
  else Some ("", url).

(** lines 503-506 of [urlsplit]: the fragment, then the query *)
Definition tail_stage (sch n url : string) : SplitResult :=
  let '(url, fragment) :=
    match partition "#" url with
    | (a, true, b) => (a, b)
    | _ => (url, "")
    end in
  let '(url, query) :=
    match partition "?" url with
    | (a, true, b) => (a, b)
    | _ => (url, "")
    end in
  mkSplit sch n url query fragment.

(** * Proofs *)

#[local] Arguments Ascii.eqb : simpl never.
#[local] Arguments String.eqb : simpl never.

Ltac bsplit :=
  repeat match goal with
  | H : _ && _ = true |- _ => apply andb_true_iff in H as [? ?]
  | H : _ || _ = false |- _ => apply orb_false_iff in H as [? ?]
  end.

Ltac bgoal :=
  repeat match goal with
  | |- _ && _ = true => apply andb_true_iff; split
  | |- _ || _ = false => apply orb_false_iff; split
  end; try done.

(** ** Facts about the [str] primitives *)

Section StrFacts.

Lemma app_cons c s t : String c s +:+ t = String c (s +:+ t).
Proof. reflexivity. Qed.

Lemma app_empty_l s : "" +:+ s = s.
Proof. reflexivity. Qed.

Lemma app_empty_r s : s +:+ "" = s.
Proof. induction s as [|c s IH]; [done|]. by rewrite app_cons, IH. Qed.

Lemma app_assoc' s t u : (s +:+ t) +:+ u = s +:+ (t +:+ u).
Proof. induction s as [|c s IH]; [done|]. by rewrite !app_cons, IH. Qed.

Lemma all_chars_app p s t :
all_chars p (s +:+ t) = all_chars p s && all_chars p t.
Proof.
induction s as [|c s IH]; [done|].
rewrite app_cons. simpl. rewrite IH. by destruct (p c).
Qed.

Lemma contains_app c s t :
contains c (s +:+ t) = contains c s || contains c t.
Proof.
induction s as [|d s IH]; [done|].
rewrite app_cons. simpl. rewrite IH. by destruct (Ascii.eqb c d).
Qed.

Lemma contains_all_chars c s :
contains c s = negb (all_chars (fun d => negb (Ascii.eqb c d)) s).
Proof.
induction s as [|d s IH]; [done|]. simpl. rewrite IH.
by destruct (Ascii.eqb c d).
Qed.

Lemma all_chars_impl (p q : ascii -> bool) s :
(forall c, p c = true -> q c = true) ->
all_chars p s = true -> all_chars q s = true.
Proof.
intros Hpq. induction s as [|c s IH]; [done|]. simpl.
intros [Hc Hs]%andb_true_iff. rewrite (Hpq _ Hc). auto.
Qed.

Lemma partition_found c s a b :
partition c s = (a, true, b) ->
s = a +:+ String c b /\ contains c a = false.
Proof.
revert a. induction s as [|d s IH]; intros a; simpl; [done|].
destruct (Ascii.eqb c d) eqn:E.
- apply Ascii.eqb_eq in E as ->. intros [= <- <-]. done.
- destruct (partition c s) as [[a' [|]] b'] eqn:Ep; [|done].
  intros [= <- <-]. destruct (IH _ eq_refl) as [-> Hn].
  split; [done|]. simpl. by rewrite E, Hn.
Qed.

Lemma partition_missing c s a b :
partition c s = (a, false, b) ->
a = s /\ b = "" /\ contains c s = false.
Proof.
revert a b. induction s as [|d s IH]; intros a b; simpl.
- by intros [= <- <-].
- destruct (Ascii.eqb c d) eqn:E; [done|].
  destruct (partition c s) as [[a' [|]] b'] eqn:Ep; [done|].
  intros [= <- <-]. by destruct (IH _ _ eq_refl) as (_ & _ & ->).
Qed.

Lemma partition_app c a b :
contains c a = false -> partition c (a +:+ String c b) = (a, true, b).
Proof.
induction a as [|d a IH]; simpl.
- intros _. by rewrite Ascii.eqb_refl.
- intros [E Hn]%orb_false_iff. by rewrite E, (IH Hn).
Qed.

Lemma partition_none c s :
contains c s = false -> partition c s = (s, false, "").
Proof.
induction s as [|d s IH]; simpl; [done|].
intros [E Hn]%orb_false_iff. by rewrite E, (IH Hn).
Qed.

Lemma rpartition_app c a b :
contains c b = false -> rpartition c (a +:+ String c b) = (a, true, b).
Proof.
intros Hb.
assert (Hb' : rpartition c b = ("", false, b)).
{ clear a. induction b as [|d b IH]; simpl; [done|].
  simpl in Hb. apply orb_false_iff in Hb as [E Hn].
  by rewrite (IH Hn), E. }
induction a as [|d a IH]; simpl.
- by rewrite Hb', Ascii.eqb_refl.
- by rewrite IH.
Qed.

Lemma rpartition_found c s a b :
rpartition c s = (a, true, b) ->
s = a +:+ String c b /\ contains c b = false.
Proof.
revert a. induction s as [|d s IH]; intros a; simpl; [done|].
destruct (rpartition c s) as [[a' [|]] b'] eqn:Ep.
- intros [= <- <-]. destruct (IH _ eq_refl) as [-> Hn]. done.
- destruct (Ascii.eqb c d) eqn:E; [|done].
  apply Ascii.eqb_eq in E as ->. intros [= <- <-]. split; [done|].
  clear IH. revert a' b' Ep. induction s as [|e s IH]; intros a' b'; simpl; [done|].
  destruct (rpartition d s) as [[a2 [|]] b2] eqn:Ep2; [done|].
  destruct (Ascii.eqb d e) eqn:E2; [done|]. intros _. simpl.
  by rewrite (IH _ _ eq_refl).
Qed.

Lemma remove_chars_clean p s :
all_chars (fun c => negb (p c)) (remove_chars p s) = true.
Proof.
induction s as [|c s IH]; [done|]. simpl.
destruct (p c) eqn:E; [done|]. simpl. by rewrite E.
Qed.

Lemma remove_chars_id p s :
all_chars (fun c => negb (p c)) s = true -> remove_chars p s = s.
Proof.
induction s as [|c s IH]; [done|]. simpl.
intros [Hc Hs]%andb_true_iff. apply negb_true_iff in Hc. rewrite Hc.
by rewrite (IH Hs).
Qed.

Lemma splitnetloc_spec s a b :
_splitnetloc s = (a, b) ->
s = a +:+ b /\ all_chars (fun c => negb (netloc_delim c)) a = true
/\ delimited b = true.
Proof.
revert a. induction s as [|c s IH]; intros a; simpl.
- by intros [= <- <-].
- destruct (netloc_delim c) eqn:E.
  + by intros [= <- <-].
  + destruct (_splitnetloc s) as [a' b'] eqn:Es. intros [= <- <-].
    destruct (IH _ eq_refl) as (-> & Ha & Hb). simpl. by rewrite E.
Qed.

Lemma splitnetloc_app a b :
all_chars (fun c => negb (netloc_delim c)) a = true ->
delimited b = true ->
_splitnetloc (a +:+ b) = (a, b).
Proof.
intros Ha Hb. induction a as [|c a IH]; simpl.
- destruct b as [|c b]; [done|]. simpl in *. by rewrite Hb.
- simpl in Ha. apply andb_true_iff in Ha as [Hc Ha].
  apply negb_true_iff in Hc. by rewrite Hc, (IH Ha).
Qed.

End StrFacts.

Lemma eqb_empty_false c s : String.eqb (String c s) "" = false.
Proof. reflexivity. Qed.

Lemma str_eqb_empty s : String.eqb s "" = true <-> s = "".
Proof. apply String.eqb_eq. Qed.

Lemma startswith_app p s : startswith p (p +:+ s) = true.
Proof.
  induction p as [|c p IH]; simpl; [by destruct s|].
  by rewrite Ascii.eqb_refl, IH.
Qed.

Lemma startswith_split p s :
  startswith p s = true -> s = p +:+ drop (String.length p) s.
Proof.
  revert s. induction p as [|c p IH]; intros s; simpl; [done|].
  destruct s as [|d s]; [done|].
  intros [->%Ascii.eqb_eq Hs]%andb_true_iff. simpl. rewrite app_cons.
  f_equal. by apply IH.
Qed.

Lemma rpartition_missing c s a b :
  rpartition c s = (a, false, b) -> contains c s = false.
Proof.
  revert a b. induction s as [|d s IH]; intros a b; simpl; [done|].
  destruct (rpartition c s) as [[a' [|]] b'] eqn:Ep; [done|].
  destruct (Ascii.eqb c d) eqn:E; [done|]. intros _. by rewrite (IH _ _ eq_refl).
Qed.

Lemma startswith_char_app c s t :
  s <> "" -> startswith (String c "") (s +:+ t) = startswith (String c "") s.
Proof. by destruct s. Qed.

Lemma split_params_stable url0 pa pr :
  split_params url0 = (pa, pr) ->
  (forall p, all_chars p url0 = true -> all_chars p (with_params pa pr) = true)
  /\ (url0 = "" \/ startswith "/" url0 = true ->
      with_params pa pr = "" \/ startswith "/" (with_params pa pr) = true)
  /\ split_params (with_params pa pr) = (pa, pr).
Proof.
  unfold split_params at 1.
  assert (Hsame : (pa, pr) = (url0, "") ->
    (forall p, all_chars p url0 = true -> all_chars p (with_params pa pr) = true)
    /\ (url0 = "" \/ startswith "/" url0 = true ->
        with_params pa pr = "" \/ startswith "/" (with_params pa pr) = true)
    /\ (split_params url0 = (url0, "") -> split_params (with_params pa pr) = (pa, pr))).
  { intros [= -> ->]. unfold with_params. simpl. done. }
  assert (Hfull : pr <> "" -> pa +:+ String ";" pr = url0 ->
    split_params url0 = (pa, pr) ->
    (forall p, all_chars p url0 = true -> all_chars p (with_params pa pr) = true)
    /\ (url0 = "" \/ startswith "/" url0 = true ->
        with_params pa pr = "" \/ startswith "/" (with_params pa pr) = true)
    /\ split_params (with_params pa pr) = (pa, pr)).
  { intros Hne Heq Hsp. unfold with_params.
    apply String.eqb_neq in Hne. rewrite Hne. simpl. by rewrite Heq. }
  destruct (contains ";" url0) eqn:Hc; cycle 1.
  { intros Heq. symmetry in Heq. destruct (Hsame Heq) as (? & ? & Hs).
    do 2 (split; [done|]). apply Hs. unfold split_params. by rewrite Hc. }
  unfold _splitparams. destruct (contains "/" url0) eqn:Hsl.
  - destruct (rpartition "/" url0) as [[head [|]] last] eqn:Er; cycle 1.
    { apply rpartition_missing in Er. congruence. }
    apply rpartition_found in Er as [E0 Hl].
    destruct (partition ";" last) as [[a [|]] b] eqn:Ep; cycle 1.
    { intros Heq. symmetry in Heq. destruct (Hsame Heq) as (? & ? & Hs).
      do 2 (split; [done|]). apply Hs. unfold split_params, _splitparams.
      rewrite Hc, Hsl. rewrite E0 at 1. rewrite (rpartition_app _ _ _ Hl).
      by rewrite Ep. }
    pose proof Ep as Ep'.
    apply partition_found in Ep as [El Ha]. intros [= <- <-].
    destruct (String.eqb b "") eqn:Eb.
    + apply String.eqb_eq in Eb as ->. unfold with_params. simpl.
      assert (E1 : url0 = (head +:+ String "/" a) +:+ ";").
      { rewrite E0, El. by rewrite app_assoc'. }
      split. { intros p. rewrite E1, all_chars_app. by intros [? _]%andb_true_iff. }
      split. { intros [Hu|Hs]; [by rewrite Hu in Hc|]. right.
               rewrite E1 in Hs. by destruct head. }
      rewrite El, contains_app in Hl. bsplit.
      unfold split_params.
      destruct (contains ";" (head +:+ String "/" a)) eqn:Hc2; [|done].
      assert (Hs2 : contains "/" (head +:+ String "/" a) = true).
      { rewrite contains_app. apply orb_true_iff. by right. }
      unfold _splitparams. rewrite Hs2.
      rewrite (rpartition_app "/" head a) by done.
      by rewrite (partition_none ";" a Ha).
    + apply String.eqb_neq in Eb. apply Hfull; [done| |].
      * rewrite E0, El. by rewrite app_assoc'.
      * unfold split_params, _splitparams. rewrite Hc, Hsl.
        rewrite E0 at 1. rewrite (rpartition_app _ _ _ Hl). by rewrite Ep'.
  - destruct (partition ";" url0) as [[a [|]] b] eqn:Ep; cycle 1.
    { apply partition_missing in Ep as (_ & _ & ?). congruence. }
    pose proof Ep as Ep'.
    apply partition_found in Ep as [E0 Ha]. intros [= <- <-].
    destruct (String.eqb b "") eqn:Eb.
    + apply String.eqb_eq in Eb as ->. unfold with_params. simpl.
      split. { intros p. rewrite E0, all_chars_app. by intros [? _]%andb_true_iff. }
      split. { intros [Hu|Hs]; [by rewrite Hu in Hc|]. destruct url0; [done|].
               simpl in Hs, Hsl. bsplit. congruence. }
      unfold split_params. by rewrite Ha.
    + apply String.eqb_neq in Eb. apply Hfull; [done|done|].
      unfold split_params, _splitparams. by rewrite Hc, Hsl, Ep'.
Qed.

(** ** Facts about [urllib.parse] *)

Section Split.
Context `{Ipaddress}.

(** What [urlsplit] guarantees of its parts when it found a netloc. *)
Lemma urlsplit_inv u r :
  urlsplit u = Some r -> s_netloc r <> "" ->
  all_chars safe (s_netloc r +:+ s_url r +:+ s_query r) = true
  /\ all_chars nondelim (s_netloc r) = true
  /\ brackets_ok (s_netloc r) = true
  /\ contains "#" (s_url r +:+ s_query r) = false
  /\ contains "?" (s_url r) = false
  /\ (s_url r = "" \/ startswith "/" (s_url r) = true).
Proof.
  unfold urlsplit.
  set (u1 := remove_chars _ (lstrip _ u)).
  assert (Hsafe : all_chars safe u1 = true) by apply remove_chars_clean.
  set (sp := match partition ":" u1 with
             | (String c0 pre, true, rest) => _ | _ => _ end).
  assert (Hrest : all_chars safe sp.2 = true).
  { subst sp. destruct (partition ":" u1) as [[a [|]] b] eqn:Ep;
      [|by destruct a].
    destruct a as [|c0 pre]; [done|].
    apply partition_found in Ep as [Eu _].
    destruct (_ && _ && _); [|done]. simpl.
    rewrite Eu, all_chars_app in Hsafe. simpl in Hsafe.
    by apply andb_true_iff in Hsafe as [_ ?]. }
  destruct sp as [sch rest]. simpl in Hrest.
  destruct (startswith "//" rest) eqn:Ess; cycle 1.
  { destruct (partition "#" rest) as [[? [|]] ?];
      destruct (partition "?" _) as [[? [|]] ?]; simpl;
      intros [= <-]; simpl; done. }
  apply startswith_split in Ess. change (String.length "//") with 2 in Ess.
  destruct (_splitnetloc (drop 2 rest)) as [n rest3] eqn:En.
  remember (drop 2 rest) as rest2 eqn:Er. clear Er. subst rest.
  rewrite all_chars_app in Hrest. simpl in Hrest.
  apply splitnetloc_spec in En as (E2 & Hn & Hd).
  rewrite E2, all_chars_app in Hrest. apply andb_true_iff in Hrest as [Hsn Hs3].
  destruct (brackets_ok n) eqn:Hb; [|done].
  set (fp := match partition "#" rest3 with
             | (a, true, b) => (a, b) | _ => (rest3, "") end).
  assert (Hf : all_chars safe fp.1 = true /\ contains "#" fp.1 = false
               /\ (fp.1 = "" \/ exists c t, fp.1 = String c t /\ netloc_delim c = true)).
  { subst fp. destruct (partition "#" rest3) as [[a [|]] b] eqn:Ep; simpl.
    - apply partition_found in Ep as [E3 Hna]. rewrite E3 in *.
      rewrite all_chars_app in Hs3. apply andb_true_iff in Hs3 as [? _].
      do 2 (split; [done|]). destruct a as [|c t]; [by left|right].
      exists c, t. done.
    - apply partition_missing in Ep as (_ & _ & ?). do 2 (split; [done|]).
      destruct rest3 as [|c t]; [by left|right]. by exists c, t. }
  destruct fp as [rest4 frag]. simpl in Hf. destruct Hf as (Hs4 & Hh4 & Hd4).
  set (qp := match partition "?" rest4 with
             | (a, true, b) => (a, b) | _ => (rest4, "") end).
  assert (Hq : all_chars safe (qp.1 +:+ qp.2) = true
               /\ contains "#" (qp.1 +:+ qp.2) = false
               /\ contains "?" qp.1 = false
               /\ (qp.1 = "" \/ exists c t, qp.1 = String c t /\ netloc_delim c = true)).
  { subst qp. destruct (partition "?" rest4) as [[a [|]] b] eqn:Ep; simpl.
    - apply partition_found in Ep as [E4 Hna]. rewrite E4 in *.
      rewrite all_chars_app in *. rewrite contains_app in *. simpl in *.
      bsplit. do 3 (split; [bgoal|]).
      destruct Hd4 as [Hd4|(c & t & Hd4 & ?)].
      + left. by destruct a.
      + destruct a as [|c' t']; [by left|right]. simpl in Hd4.
        injection Hd4 as -> _. by exists c, t'.
    - apply partition_missing in Ep as (_ & _ & ?).
      rewrite app_empty_r. done. }
  destruct qp as [url q]. simpl in Hq. destruct Hq as (Hsq & Hhq & Hqq & Hdq).
  simpl. intros [= <-]. simpl. intros _.
  split. { rewrite all_chars_app. by rewrite Hsn, Hsq. }
  do 4 (split; [done|]).
  destruct Hdq as [?|(c & t & -> & Hc)]; [by left|right].
  rewrite contains_app in Hhq. apply orb_false_iff in Hhq as [Hh _].
  simpl in *. apply orb_false_iff in Hqq as [E1 _].
  apply orb_false_iff in Hh as [E3 _].
  unfold netloc_delim in Hc. rewrite !(Ascii.eqb_sym c) in Hc.
  rewrite E1, E3, !orb_false_r in Hc. by rewrite Hc.
Qed.

(** [urlsplit] reads a text laid out as [urlunsplit] writes it back
    into the parts it was written from. *)
Lemma urlsplit_canonical sch n url q :
  web_scheme sch ->
  all_chars safe (n +:+ url +:+ q) = true ->
  all_chars nondelim n = true ->
  brackets_ok n = true ->
  contains "#" (url +:+ q) = false ->
  contains "?" url = false ->
  (url = "" \/ startswith "/" url = true) ->
  urlsplit (sch +:+ String ":" ("//" +:+ n +:+ url +:+ qpart q))
  = Some (mkSplit sch n url q "").
Proof.
  intros Hsch Hsafe Hn Hb Hh Hq Hsl.
  rewrite !all_chars_app in Hsafe. rewrite contains_app in Hh. bsplit.
  assert (Hsq : all_chars safe (qpart q) = true).
  { unfold qpart. destruct (String.eqb q ""); [done|]. simpl. done. }
  assert (Hhq : contains "#" (qpart q) = false).
  { unfold qpart. destruct (String.eqb q ""); [done|]. simpl. done. }
  assert (Hd : delimited (url +:+ qpart q) = true).
  { destruct Hsl as [->|Hs].
    - simpl. unfold qpart. by destruct (String.eqb q "").
    - destruct url as [|c t]; [done|]. simpl in Hs. rewrite app_cons. simpl.
      apply andb_true_iff in Hs as [Hc%Ascii.eqb_eq _]. by subst c. }
  unfold urlsplit.
  assert (Hl : lstrip WHATWG_C0_CONTROL_OR_SPACE
                 (sch +:+ String ":" ("//" +:+ n +:+ url +:+ qpart q))
               = sch +:+ String ":" ("//" +:+ n +:+ url +:+ qpart q)).
  { by destruct Hsch as [-> | ->]. }
  rewrite Hl. clear Hl.
  rewrite remove_chars_id; cycle 1.
  { rewrite all_chars_app. simpl. rewrite !all_chars_app.
    fold safe. bgoal. by destruct Hsch as [-> | ->]. }
  assert (Hp : partition ":" (sch +:+ String ":" ("//" +:+ n +:+ url +:+ qpart q))
               = (sch, true, "//" +:+ n +:+ url +:+ qpart q)).
  { apply partition_app. by destruct Hsch as [-> | ->]. }
  rewrite Hp. clear Hp.
  assert (Hs : match sch with
               | String c0 pre =>
                   if isascii c0 && isalpha c0 && all_chars scheme_chars (String c0 pre)
                   then (lower (String c0 pre), "//" +:+ n +:+ url +:+ qpart q)
                   else ("", sch +:+ String ":" ("//" +:+ n +:+ url +:+ qpart q))
               | "" => ("", sch +:+ String ":" ("//" +:+ n +:+ url +:+ qpart q))
               end = (sch, "//" +:+ n +:+ url +:+ qpart q)).
  { by destruct Hsch as [-> | ->]. }
  rewrite Hs. clear Hs. cbv zeta beta iota.
  rewrite (startswith_app "//").
  change (drop 2 ("//" +:+ n +:+ url +:+ qpart q)) with (n +:+ url +:+ qpart q).
  rewrite (splitnetloc_app _ _ Hn Hd), Hb.
  rewrite (partition_none "#"); cycle 1.
  { rewrite contains_app. bgoal. }
  unfold qpart. destruct (String.eqb q "") eqn:Eq.
  - apply String.eqb_eq in Eq as ->. rewrite app_empty_r.
    by rewrite (partition_none "?" _ Hq).
  - by rewrite (partition_app "?" _ _ Hq).
Qed.

Lemma contains_false c s :
  contains c s = false <-> all_chars (fun d => negb (Ascii.eqb c d)) s = true.
Proof. rewrite contains_all_chars. by destruct (all_chars _ s). Qed.

Lemma nondelim_no c s :
  netloc_delim c = true -> all_chars nondelim s = true -> contains c s = false.
Proof.
  intros Hc Hs. apply contains_false. revert Hs. apply all_chars_impl.
  intros d Hd. apply negb_true_iff. destruct (Ascii.eqb c d) eqn:E; [|done].
  apply Ascii.eqb_eq in E as <-. unfold nondelim in Hd. by rewrite Hc in Hd.
Qed.

Lemma geturl_layout sch n url q :
  n <> "" -> sch <> "" -> (url = "" \/ startswith "/" url = true) ->
  urlunsplit sch n url q "" = sch +:+ String ":" ("//" +:+ n +:+ url +:+ qpart q).
Proof.
  intros Hn Hs Hu. unfold urlunsplit.
  apply String.eqb_neq in Hn, Hs. rewrite Hn, Hs. cbn [negb orb].
  assert (Hu' : negb (String.eqb url "") && negb (startswith "/" url) = false).
  { destruct Hu as [->|Hu]; [done|]. rewrite Hu. by rewrite andb_false_r. }
  rewrite Hu'. change (negb (String.eqb "" "")) with false. cbv iota.
  unfold qpart. destruct (String.eqb q "") eqn:Eq; cbn [negb].
  - by rewrite !app_empty_r.
  - rewrite !app_assoc'. rewrite app_cons. by rewrite !app_assoc'.
Qed.

(** The URL that [geturl] writes for an accepted parse, once the
    fragment is dropped, parses back into the same parts. *)
Lemma urlparse_geturl u p :
  urlparse u = Some p -> web_scheme (scheme p) -> netloc p <> "" ->
  urlparse (geturl (replace_fragment p "")) = Some (replace_fragment p "")
  /\ contains "#" (geturl (replace_fragment p "")) = false.
Proof.
  unfold urlparse at 1. destruct (urlsplit u) as [r|] eqn:Er; [|done].
  match goal with
  | |- context [if ?b then _splitparams ?x else ?y] =>
      destruct (if b then _splitparams x else y) as [pa pr] eqn:Ep
  end.
  intros [= <-]. simpl.
  intros Hsch Hn.
  assert (Hup : str_in (s_scheme r) uses_params = true)
    by (by destruct Hsch as [-> | ->]).
  rewrite Hup in Ep. simpl in Ep. fold (split_params (s_url r)) in Ep.
  destruct (urlsplit_inv _ _ Er Hn) as (Hsafe & Hnd & Hb & Hh & Hq & Hsl).
  destruct (split_params_stable _ _ _ Ep) as (Hall & Hsl' & Hst).
  specialize (Hsl' Hsl).
  rewrite !all_chars_app in Hsafe. rewrite contains_app in Hh. bsplit.
  assert (Hne : s_scheme r <> "") by (by destruct Hsch as [-> | ->]).
  unfold geturl, urlunparse, replace_fragment. simpl.
  fold (with_params pa pr).
  rewrite (geturl_layout _ _ _ _ Hn Hne Hsl').
  assert (Hh' : contains "#" (with_params pa pr) = false).
  { apply contains_false, Hall. by apply contains_false. }
  assert (Hq' : contains "?" (with_params pa pr) = false).
  { apply contains_false, Hall. by apply contains_false. }
  split.
  - unfold urlparse. rewrite (urlsplit_canonical (s_scheme r) (s_netloc r)
      (with_params pa pr) (s_query r)); try done.
    + cbn [s_scheme s_url s_netloc s_query s_fragment].
      rewrite Hup. cbn [andb]. fold (split_params (with_params pa pr)).
      by rewrite Hst.
    + rewrite !all_chars_app. bgoal. by apply Hall.
    + rewrite contains_app. bgoal.
  - rewrite contains_app. simpl. rewrite !contains_app.
    rewrite (nondelim_no "#" (s_netloc r)) by done.
    rewrite Hh'. 
    assert (Hqp : contains "#" (qpart (s_query r)) = false).
    { unfold qpart. destruct (String.eqb _ ""); [done|]. simpl. done. }
    rewrite Hqp. by destruct Hsch as [-> | ->].
Qed.

End Split.

(** ** Facts about the crawl loop *)

Section Crawl.
Context `{Ipaddress} `{World}.

(** The four ways through the body that reach the next iteration. *)
Lemma iteration_continue c st st' :
  iteration c st = Continue st' ->
  exists url0 q u,
    queue st = url0 :: q
    /\ (Z.of_nat (size (visited st)) < max_pages c)%Z
    /\ clean_url url0 = Some u
    /\ ((* discarded *)
        ((u = "" \/ u ∈ visited st)
         /\ st' = mkState (visited st) q (results st) (trace st))
        \/ (* disallowed *)
        ((u ∉ visited st)
         /\ Robotparser.can_fetch (rp c) "*" u = Some false
         /\ st' = mkState ({[u]} ∪ visited st) q (results st) (trace st))
        \/ (* fetch failed *)
        ((u ∉ visited st)
         /\ fetch_failed (session_get (length (trace st)) u) = true
         /\ st' = mkState ({[u]} ∪ visited st) q (results st)
                    (trace st ++ [EFetch u]))
        \/ (* page recorded *)
        ((u ∉ visited st)
         /\ exists resp q',
             session_get (length (trace st)) u = Got resp
             /\ fetch_failed (Got resp) = false
             /\ st' = mkState ({[u]} ∪ visited st) q'
                        (results st ++ [mkPage (extract_content (text_soup resp)).1 u])
                        (trace st ++ [EFetch u; ESleep (delay c)]))).
Proof.
  unfold iteration. destruct (queue st) as [|url0 q] eqn:Eq; [done|].
  destruct (Z.of_nat _ <? _)%Z eqn:Elt; [|done]. apply Z.ltb_lt in Elt.
  destruct (clean_url url0) as [u|] eqn:Ec; [|done]. simpl.
  intros Hst. exists url0, q, u. do 3 (split; [done|]).
  destruct (String.eqb u "" || bool_decide (u ∈ visited st)) eqn:Ed.
  { left. injection Hst as <-. split; [|done].
    apply orb_true_iff in Ed as [?%String.eqb_eq|?%bool_decide_eq_true]; auto. }
  apply orb_false_iff in Ed as [_ Hv%bool_decide_eq_false].
  right. destruct (Robotparser.can_fetch _ _ _) as [[|]|] eqn:Er; [| |done].
  2:{ left. by injection Hst as <-. }
  right. destruct (session_get _ _) as [|resp] eqn:Eg.
  { left. by injection Hst as <-. }
  destruct (negb (status_code resp =? 200)%Z) eqn:Es.
  { left. injection Hst as <-. simpl. by rewrite Es. }
  destruct (not_html (content_type resp)) eqn:Eh.
  { left. injection Hst as <-. simpl. by rewrite Es, Eh. }
  right. split; [done|].
  destruct (extract_content (text_soup resp)) as [d soup] eqn:Ee.
  destruct (enqueue_links _ _ _ _ _) as [q' [|]] eqn:El; [|done].
  injection Hst as <-. exists resp, q'. simpl. rewrite Es, Eh.
  do 2 (split; [done|]). by rewrite <- app_assoc.
Qed.

Lemma fetched_app tr1 tr2 : fetched (tr1 ++ tr2) = fetched tr1 ++ fetched tr2.
Proof. apply omap_app. Qed.

Lemma crawl_inv_init base_url : crawl_inv (initial_state base_url).
Proof. split; simpl; try constructor; intros u Hu; by apply elem_of_nil in Hu. Qed.

Lemma crawl_inv_step c st st' :
  crawl_inv st -> iteration c st = Continue st' -> crawl_inv st'.
Proof.
  intros [I1 I2 I3 I4] Hit.
  apply iteration_continue in Hit as (url0 & q & u & _ & _ & _ & Hcase).
  destruct Hcase as [[_ ->]|[(Hv & _ & ->)|[(Hv & _ & ->)|(Hv & resp & q' & _ & _ & ->)]]];
    split; simpl; try done.
  - intros x Hx. apply elem_of_union_r. by apply I2.
  - intros x Hx. apply elem_of_union_r. by apply I4.
  - intros x Hx. apply elem_of_union_r. by apply I2.
  - rewrite fetched_app. simpl. apply NoDup_app. split; [done|].
    split; [|apply NoDup_singleton].
    intros x Hx ->%list_elem_of_singleton. by apply Hv, I4.
  - intros x. rewrite fetched_app. simpl.
    intros [Hx| ->%list_elem_of_singleton]%elem_of_app; [|set_solver].
    apply elem_of_union_r. by apply I4.
  - rewrite map_app. simpl. apply NoDup_app. split; [done|].
    split; [|apply NoDup_singleton].
    intros x Hx ->%list_elem_of_singleton. by apply Hv, I2.
  - intros x. rewrite map_app. simpl.
    intros [Hx| ->%list_elem_of_singleton]%elem_of_app; [|set_solver].
    apply elem_of_union_r. by apply I2.
  - rewrite fetched_app. simpl. apply NoDup_app. split; [done|].
    split; [|apply NoDup_singleton].
    intros x Hx ->%list_elem_of_singleton. by apply Hv, I4.
  - intros x. rewrite fetched_app. simpl.
    intros [Hx| ->%list_elem_of_singleton]%elem_of_app; [|set_solver].
    apply elem_of_union_r. by apply I4.
Qed.

Lemma reachable_inv c st : reachable c st -> crawl_inv st.
Proof.
  induction 1 as [b|st st' _ IH Hit]; [apply crawl_inv_init|].
  by apply (crawl_inv_step c st).
Qed.

(** One iteration adds at most the current URL to the visited set, and
    only while the set is below the bound. *)
Lemma visited_step c st st' :
  iteration c st = Continue st' ->
  visited st ⊆ visited st'
  /\ (Z.of_nat (size (visited st')) <= Z.of_nat (size (visited st)) + 1)%Z
  /\ (Z.of_nat (size (visited st)) < max_pages c)%Z.
Proof.
  intros Hit.
  apply iteration_continue in Hit as (url0 & q & u & _ & Hlt & _ & Hcase).
  assert (Hadd : u ∉ visited st ->
    (Z.of_nat (size ({[u]} ∪ visited st)) <= Z.of_nat (size (visited st)) + 1)%Z).
  { intros Hv. rewrite size_union by set_solver. rewrite size_singleton. lia. }
  destruct Hcase as [[_ ->]|[(Hv & _ & ->)|[(Hv & _ & ->)|(Hv & resp & q' & _ & _ & ->)]]];
    simpl; (split; [set_solver|]); (split; [|done]); auto; lia.
Qed.

Lemma records_le_visited st :
  crawl_inv st -> length (results st) <= size (visited st).
Proof.
  intros [I1 I2 _ _].
  rewrite <- (length_map url), <- (size_list_to_set (C:=gset string)) by done.
  apply subseteq_size. intros x Hx. apply I2. by apply elem_of_list_to_set in Hx.
Qed.

Lemma visited_bound c st :
  (0 <= max_pages c)%Z -> reachable c st ->
  (Z.of_nat (size (visited st)) <= max_pages c)%Z.
Proof.
  intros Hm. induction 1 as [b|st st' _ IH Hit].
  - change (visited (initial_state b)) with (∅ : gset string).
    rewrite size_empty. lia.
  - apply visited_step in Hit as (_ & ? & ?). lia.
Qed.

(** The loop ends: each iteration either shortens the queue or uses
    up one of the [max_pages - |visited|] places left. *)
Lemma crawl_loop_ends c st :
  exists fuel, crawl_loop fuel c st <> OutOfFuel.
Proof.
  remember (Z.to_nat (max_pages c - Z.of_nat (size (visited st)))) as n eqn:En.
  revert st En. induction n as [n IHn] using lt_wf_ind. intros st En.
  remember (length (queue st)) as m eqn:Em.
  revert st En Em. induction m as [m IHm] using lt_wf_ind. intros st En Em.
  destruct (iteration c st) as [|st'|st'] eqn:Hit.
  - exists 1. simpl. by rewrite Hit.
  - assert (Hex : exists fuel, crawl_loop fuel c st' <> OutOfFuel).
    { pose proof Hit as Hit'.
      apply iteration_continue in Hit' as (url0 & q & u & Hq & Hlt & _ & Hcase).
      assert (Hadd : u ∉ visited st ->
        size ({[u]} ∪ visited st) = S (size (visited st))).
      { intros Hv. rewrite size_union by set_solver. by rewrite size_singleton. }
      destruct Hcase as [[_ ->]|[(Hv & _ & ->)|[(Hv & _ & ->)|(Hv & resp & q' & _ & _ & ->)]]].
      - eapply (IHm (length q)); [|done|done]. rewrite Em, Hq. simpl. lia.
      - eapply (IHn _ _ _ eq_refl). Unshelve. simpl. rewrite (Hadd Hv). lia.
      - eapply (IHn _ _ _ eq_refl). Unshelve. simpl. rewrite (Hadd Hv). lia.
      - eapply (IHn _ _ _ eq_refl). Unshelve. simpl. rewrite (Hadd Hv). lia. }
    destruct Hex as [fuel Hf]. exists (S fuel). simpl. by rewrite Hit.
  - exists 1. simpl. by rewrite Hit.
Qed.

Lemma crawl_loop_reachable fuel c st st' :
  reachable c st -> crawl_loop fuel c st = Returned st' ->
  reachable c st' /\ iteration c st' = Exit.
Proof.
  revert st. induction fuel as [|fuel IH]; intros st Hr; simpl; [done|].
  destruct (iteration c st) as [|st1|st1] eqn:Hit; [|by eauto using reach_step|done].
  by intros [= <-].
Qed.

End Crawl.

(** ** The politeness gate *)

(** C1, evaluated on the code.  When opening robots.txt raises (a
    transport error), [build_robot_parser] hands back the parser it
    created, which has read nothing: [can_fetch] then answers [False]
    for every agent and URL, where the claim expects [True]. *)
Theorem robots_unreachable_denies_all `{Ipaddress}
    (open : string -> Robotparser.urlopen_result) (base_url : string)
    (rp : Robotparser.RobotFileParser) :
  (forall u, open u = Robotparser.OtherError) ->
  build_robot_parser open base_url = Some rp ->
  forall ua u, Robotparser.can_fetch rp ua u = Some false.
Proof.
  intros Hopen. unfold build_robot_parser.
  destruct (urlparse base_url) as [p|]; [|done].
  unfold Robotparser.set_url.
  destruct (urlparse _) as [p'|]; simpl.
  - rewrite Hopen. simpl. by intros [= <-].
  - by intros [= <-].
Qed.

Lemma robots_unreachable_denies_all_witness :
  (forall u, @urlopen site_robots_down u = Robotparser.OtherError)
  /\ exists rp,
      @build_robot_parser no_ipv6 (@urlopen site_robots_down) "http://site.test/" = Some rp
      /\ Robotparser.can_fetch rp "*" "http://site.test/" = Some false.
Proof.
  split; [reflexivity|]. eexists. split; [reflexivity|].
  apply (@robots_unreachable_denies_all no_ipv6 (@urlopen site_robots_down)
           "http://site.test/"); reflexivity.
Defined.

(** With robots.txt unreachable the run over the three-page site ends
    with the home page marked visited and nothing fetched or recorded. *)
Example crawl_with_robots_down :
  exists st, @crawl_site no_ipv6 site_robots_down 20 "http://site.test/" 5 (1 # 2) = Returned st
             /\ results st = [] /\ trace st = []
             /\ elements (visited st) = ["http://site.test/"].
Proof. eexists. split; [vm_compute; reflexivity|]. by vm_compute. Qed.

(** ** The fetch step *)

Section FetchStep.
Context `{Ipaddress} `{World}.


End FetchStep.



(** ** Domain scope *)

(** [same_domain] keeps the URLs whose lower-cased netloc is the base
    domain or ends with a dot and the base domain; the two examples of
    the specification come out as it says. *)
Lemma same_domain_examples `{Ipaddress} :
  same_domain "http://blog.example.com/p" "example.com" = Some true
  /\ same_domain "http://evil.com/example.com" "example.com" = Some false.
Proof. split; reflexivity. Qed.

(** C3, evaluated on the code.  The base domain is computed with
    [replace("www.", "")], which removes every occurrence of ["www."],
    not a leading one only: for the host [mywww.example.com] the base
    domain becomes [myexample.com], and the site's own pages fall out
    of scope.  The replacement also comes before the lower-casing, so a
    leading ["WWW."] stays. *)
Theorem base_domain_drops_inner_www `{Ipaddress} :
  base_domain_of "http://mywww.example.com/" = Some "myexample.com"
  /\ same_domain "http://mywww.example.com/about" "myexample.com" = Some false
  /\ base_domain_of "http://WWW.Example.com/" = Some "www.example.com".
Proof. repeat split; reflexivity. Qed.

(** ** The URL filter *)

Section Normalizer.
Context `{Ipaddress}.

Lemma str_in_web sch :
  str_in sch ["http"; "https"] = true <-> web_scheme sch.
Proof.
  unfold str_in, web_scheme. simpl. rewrite orb_false_r, orb_true_iff.
  by rewrite !String.eqb_eq.
Qed.

Lemma clean_url_cases u p :
  urlparse u = Some p ->
  (rejected p /\ clean_url u = Some "")
  \/ (~ rejected p /\ web_scheme (scheme p) /\ netloc p <> ""
      /\ clean_url u = Some (geturl (replace_fragment p ""))).
Proof.
  intros Hp. unfold clean_url. rewrite Hp.
  destruct (String.eqb (scheme p) "") eqn:Es.
  { left. apply String.eqb_eq in Es. split; [by left|done]. }
  destruct (String.eqb (netloc p) "") eqn:En; cbn [orb].
  { left. apply String.eqb_eq in En. split; [by right; left|done]. }
  apply String.eqb_neq in Es, En.
  destruct (str_in (scheme p) ["http"; "https"]) eqn:Ew; cbn [negb].
  2:{ left. split; [|done]. right. right. left.
      split; intros E; rewrite E in Ew; done. }
  apply str_in_web in Ew.
  destruct (existsb _ SKIP_EXTENSIONS) eqn:Ex.
  { left. split; [|done]. do 3 right.
    apply existsb_exists in Ex as (ext & Hin & Hend).
    exists ext. by rewrite list_elem_of_In. }
  right. split; [|done].
  intros [?|[?|[[H1 H2]|(ext & Hin & Hend)]]]; try done.
  - by destruct Ew.
  - assert (Hex : existsb (endswith (lower (path p))) SKIP_EXTENSIONS = true).
    { apply existsb_exists. exists ext. by rewrite <- list_elem_of_In. }
    congruence.
Qed.

(** C4, as amended.  For every input on which [urlparse] does not
    raise: the filter returns the empty string when the scheme or the
    netloc is missing, the scheme is neither http nor https, or the
    lower-cased path ends in a skip-listed extension; otherwise it
    returns the URL written back from the parsed parts without the
    fragment.  That URL is not empty, has no ['#'], and parses into
    the same scheme, netloc, path, parameters and query with an empty
    fragment. *)
Theorem clean_url_spec u p :
  urlparse u = Some p ->
  (rejected p -> clean_url u = Some "")
  /\ (~ rejected p ->
      exists r, clean_url u = Some r
                /\ r = geturl (replace_fragment p "")
                /\ r <> ""
                /\ contains "#" r = false
                /\ urlparse r = Some (replace_fragment p "")).
Proof.
  intros Hp.
  destruct (clean_url_cases u p Hp) as [[Hr Hc]|(Hr & Hw & Hn & Hc)].
  - split; [done|]. by intros [].
  - split; [by intros ?|]. intros _.
    destruct (urlparse_geturl u p Hp Hw Hn) as [Hrt Hh].
    eexists. split; [done|]. split; [done|]. split; [|done].
    intros E. rewrite E in Hrt.
    assert (Hx : urlparse "" = Some (mkParse "" "" "" "" "" "")) by reflexivity.
    rewrite Hx in Hrt. injection Hrt as E1 _.
    destruct Hw as [Hw|Hw]; rewrite Hw in E1; done.
Qed.

(** C10.  Filtering twice is filtering once: whatever [clean_url]
    returns, the empty string included, it returns unchanged when
    applied to it (and where it raises, so does the composition).
    Hence every link that the anchor loop appends to the queue is a
    fixed point of the filter: the URL tested against the visited set
    at dequeue time is the one that was enqueued. *)
Theorem clean_url_idempotent `{World} :
  (forall u, clean_url u ≫= clean_url = clean_url u)
  /\ (forall bd vis page_url hrefs q q' ok x,
        enqueue_links bd vis page_url hrefs q = (q', ok) ->
        x ∈ q' -> x ∈ q \/ clean_url x = Some x).
Proof.
  assert (Hid : forall u r, clean_url u = Some r -> clean_url r = Some r).
  { intros u r Hc. unfold clean_url in Hc.
    destruct (urlparse u) as [p|] eqn:Hp; [|done].
    destruct (clean_url_cases u p Hp) as [[_ Hc']|(Hr & Hw & Hn & Hc')];
      unfold clean_url in Hc'; rewrite Hp in Hc'; rewrite Hc' in Hc;
      injection Hc as <-; [reflexivity|].
    destruct (urlparse_geturl u p Hp Hw Hn) as [Hrt _].
    destruct (clean_url_cases _ _ Hrt) as [[Hr' _]|(_ & _ & _ & Hc2)]; [|done].
    exfalso. apply Hr. exact Hr'. }
  split.
  - intros u. destruct (clean_url u) as [r|] eqn:Hc; [|done]. simpl. eauto.
  - intros bd vis page_url hrefs. induction hrefs as [|a rest IH];
      intros q q' ok x; simpl.
    { intros [= <- <-]. auto. }
    destruct (urljoin page_url a) as [joined|]; [|intros [= <- <-]; auto].
    destruct (clean_url joined) as [href|] eqn:Hc; [|intros [= <- <-]; auto].
    destruct (String.eqb href ""); [by apply IH|].
    destruct (same_domain href bd) as [[|]|]; [|by apply IH|intros [= <- <-]; auto].
    destruct (bool_decide _); [by apply IH|].
    intros He Hx. destruct (IH _ _ _ _ He Hx) as [Hin|?]; [|by right].
    apply elem_of_app in Hin as [?| ->%list_elem_of_singleton]; [by left|right].
    by apply (Hid joined).
Qed.

End Normalizer.

Lemma clean_url_spec_witness :
  @urlparse no_ipv6 "HTTP://a.co/x;p?q#frag"
  = Some (mkParse "http" "a.co" "/x" "p" "q" "frag")
  /\ @clean_url no_ipv6 "HTTP://a.co/x;p?q#frag" = Some "http://a.co/x;p?q"
  /\ @clean_url no_ipv6 "http://a.co/logo.PNG?v=1" = Some "".
Proof.
  assert (Hnr : ~ rejected (mkParse "http" "a.co" "/x" "p" "q" "frag")).
  { intros [E|[E|[[E _]|(ext & Hin & Hend)]]]; [done|done|done|].
    simpl in Hin.
    repeat (apply elem_of_cons in Hin as [->|Hin]; [by vm_compute in Hend|]).
    by apply elem_of_nil in Hin. }
  split; [reflexivity|]. split.
  - destruct (proj2 (@clean_url_spec no_ipv6 "HTTP://a.co/x;p?q#frag"
                       (mkParse "http" "a.co" "/x" "p" "q" "frag") eq_refl) Hnr)
      as (r & Hc & -> & _).
    exact Hc.
  - apply (proj1 (@clean_url_spec no_ipv6 "http://a.co/logo.PNG?v=1"
                    (mkParse "http" "a.co" "/logo.PNG" "" "v=1" "") eq_refl)).
    do 3 right. exists ".png". split; [|reflexivity]. set_solver.
Defined.

Lemma clean_url_idempotent_witness :
  @clean_url no_ipv6 "http://site.test/b" = Some "http://site.test/b".
Proof.
  assert (He : @enqueue_links no_ipv6 site_test "site.test" ∅
                 "http://site.test/" ["http://site.test/b"] []
               = (["http://site.test/b"], true))
    by (vm_compute; reflexivity).
  assert (Hx : "http://site.test/b" ∈ ["http://site.test/b"]) by set_solver.
  destruct (proj2 (@clean_url_idempotent no_ipv6 site_test)
              _ _ _ _ _ _ _ _ He Hx) as [Hin|Hc].
  - by apply elem_of_nil in Hin.
  - exact Hc.
Defined.

(** C4 as stated fails: on a netloc with an opening bracket that is
    never closed [urlparse] raises [ValueError], and the filter returns
    neither the empty string nor a URL. *)
Lemma clean_url_raises_on_open_bracket :
  @clean_url no_ipv6 "http://[a/" = None.
Proof. reflexivity. Qed.

(** ** Extraction and score *)

(** C5.  The score of every extracted page is its content length plus
    80 for each h1, h2 or h3 left in the document plus twice the length
    of its meta description; on a page of 500 characters of text, three
    headings and a description of 50 characters it is 840. *)
Theorem score_is_weighted_sum :
  (forall soup0,
     let d := (extract_content soup0).1 in
     let soup := (extract_content soup0).2 in
     score d = (content_length d + (h_count soup * 80)
                + (len (meta_description d) * 2))%Z)
  /\ (let d := (extract_content page_840).1 in
      content_length d = 500%Z
      /\ h_count (extract_content page_840).2 = 3%Z
      /\ len (meta_description d) = 50%Z
      /\ score d = 840%Z).
Proof. split; [reflexivity|]. by vm_compute. Qed.

(** C6, as amended.  In the document left after the boilerplate tags
    are removed, let [meta] be the first [<meta name="description">].
    When [meta] has a non-empty [content], the meta description is that
    content, collapsed and trimmed.  When [meta] is missing, or is there
    with a missing or empty [content], the first
    [<meta property="og:description">] is used on the same terms, and
    the result is empty when that one has no content either.  The
    reading of the specification is met whenever [meta] is missing or
    has content. *)
Theorem meta_description_fallback soup0 :
  let d := (extract_content soup0).1 in
  let soup := (extract_content soup0).2 in
  let meta := Bs4.find (Bs4.named_with "meta" "name" "description") soup in
  (has_content meta = true -> meta_description d = normalize_text (content_of meta))
  /\ (has_content meta = false -> meta_description d = og_fallback soup)
  /\ (has_content meta = true \/ meta = None ->
      meta_description d = spec_meta_description soup).
Proof.
  cbv zeta. unfold extract_content. cbn [fst snd meta_description].
  set (soup := Bs4.decompose_all BOILERPLATE soup0).
  unfold extract_meta_desc, og_fallback, spec_meta_description.
  destruct (Bs4.find (Bs4.named_with "meta" "name" "description") soup)
    as [m|] eqn:Em.
  - destruct (has_content (Some m)) eqn:Hc.
    + split; [done|]. split; [done|]. done.
    + split; [done|]. split; [done|]. by intros [|].
  - cbn [has_content]. split; [done|]. split; [done|]. intros _.
    destruct (Bs4.find (Bs4.named_with "meta" "property" "og:description") soup)
      as [og|] eqn:Eo; [|done].
    destruct (has_content (Some og)) eqn:Hc; [done|].
    unfold has_content, truthy in Hc. unfold content_of.
    destruct (Bs4.get og "content") as [s|]; [|done].
    apply negb_false_iff, String.eqb_eq in Hc as ->. done.
Qed.

Lemma meta_description_fallback_witness :
  meta_description (extract_content (page [])).1 = "about the site"
  /\ meta_description (extract_content page_og).1 = "from og".
Proof.
  split.
  - rewrite (proj1 (meta_description_fallback (page []))); reflexivity.
  - rewrite (proj1 (proj2 (meta_description_fallback page_og))); reflexivity.
Defined.

(** C6 as stated fails: with a description tag that is there but has
    an empty content, the extractor does not stay with that tag (whose
    trimmed content is empty) but takes the og description. *)
Lemma empty_description_falls_back_to_og :
  Bs4.find (Bs4.named_with "meta" "name" "description") (extract_content page_og).2
  <> None
  /\ spec_meta_description (extract_content page_og).2 = ""
  /\ meta_description (extract_content page_og).1 = "from og".
Proof. split; [done|]. split; reflexivity. Qed.

(** ** The crawl loop *)

Section Loop.
Context `{Ipaddress} `{World}.

(** C7.  For a non-negative [max_pages]: at the head of every
    iteration of a run the result list is no longer than the visited
    set, which has at most [max_pages] elements; and an iteration
    never takes a URL out of the visited set. *)
Theorem visited_grows_within_bound c st :
  (0 <= max_pages c)%Z ->
  reachable c st ->
  (Z.of_nat (length (results st)) <= Z.of_nat (size (visited st)))%Z
  /\ (Z.of_nat (size (visited st)) <= max_pages c)%Z
  /\ (forall st', iteration c st = Continue st' ->
                  visited st ⊆ visited st'
                  /\ size (visited st) <= size (visited st')).
Proof.
  intros Hm Hr. split.
  { apply inj_le, records_le_visited. by apply (reachable_inv c). }
  split; [by apply visited_bound|].
  intros st' Hit. apply visited_step in Hit as (Hsub & _ & _).
  split; [done|]. by apply subseteq_size.
Qed.

(** C8.  Every run ends, by returning or by raising; the records of a
    run that returns have pairwise distinct URLs, and so have its
    requests: no URL is fetched twice, however often it was queued. *)
Theorem records_have_distinct_urls base_url max_pages delay :
  (exists fuel, crawl_site fuel base_url max_pages delay <> OutOfFuel)
  /\ (forall fuel st,
        crawl_site fuel base_url max_pages delay = Returned st ->
        NoDup (map url (results st)) /\ NoDup (fetched (trace st))).
Proof.
  unfold crawl_site. destruct (setup base_url max_pages delay) as [c|].
  - split; [apply crawl_loop_ends|].
    intros fuel st Hret.
    destruct (crawl_loop_reachable fuel c _ st (reach_init c base_url) Hret)
      as [Hr _].
    apply reachable_inv in Hr as [I1 _ I3 _]. done.
  - split; [by exists 0|]. done.
Qed.


End Loop.

Lemma visited_grows_within_bound_witness :
  (Z.of_nat (length (results (@next_state no_ipv6 site_test config_test
                                (initial_state "http://site.test/"))))
   <= Z.of_nat (size (visited (@next_state no_ipv6 site_test config_test
                                 (initial_state "http://site.test/")))))%Z
  /\ (Z.of_nat (size (visited (@next_state no_ipv6 site_test config_test
                                 (initial_state "http://site.test/"))))
      <= 5)%Z.
Proof.
  destruct (@visited_grows_within_bound no_ipv6 site_test config_test
              (@next_state no_ipv6 site_test config_test
                 (initial_state "http://site.test/")))
    as (H1 & H2 & _).
  - simpl. lia.
  - apply (reach_step config_test (initial_state "http://site.test/"));
      [apply reach_init|]. vm_compute. reflexivity.
  - split; [exact H1|exact H2].
Defined.

Lemma records_have_distinct_urls_witness :
  NoDup (map url (results (final_state
    (@crawl_site no_ipv6 site_test 20 "http://site.test/" 5 (1 # 2))))).
Proof.
  apply (proj2 (@records_have_distinct_urls no_ipv6 site_test
                  "http://site.test/" 5 (1 # 2)) 20).
  vm_compute. reflexivity.
Defined.


(** C9, evaluated on the code.  The claim asks for a sleep of the
    configured delay at the end of every iteration, so that no two
    requests follow each other without a pause; the help text of
    [--delay] ("Delay entre requisições") says the same.  [time.sleep]
    is the last statement of the path that records a page only: every
    [continue] of a failed request (status other than 200, content type
    without ["text/html"], [RequestException]) passes it by.  In the run
    over the three-page site the request for [/a] is answered 404 and is
    followed at once by the request for [/b], with no sleep in
    between. *)
Lemma failed_fetch_is_not_followed_by_sleep :
  trace (final_state (@crawl_site no_ipv6 site_test 20 "http://site.test/" 5 (1 # 2)))
  = [EFetch "http://site.test/"; ESleep (1 # 2);
     EFetch "http://site.test/a";
     EFetch "http://site.test/b"; ESleep (1 # 2)]
  /\ sleeps_between_fetches
       (trace (final_state
          (@crawl_site no_ipv6 site_test 20 "http://site.test/" 5 (1 # 2))))
     = false.
Proof. split; by vm_compute. Qed.

(** * Further properties of the code *)

(** ** Facts about [normalize_text] *)

Lemma collapsed_weaken b s : collapsed true s = true -> collapsed b s = true.
Proof.
  destruct s as [|c s]; [done|]. simpl. destruct (isspace c); [|done].
  by rewrite andb_false_r.
Qed.

Lemma collapse_ws_collapsed b s : collapsed b (collapse_ws b s) = true.
Proof.
  revert b. induction s as [|c s IH]; intros b; [done|]. simpl.
  destruct (isspace c) eqn:Ec.
  - destruct b; [apply IH|]. simpl. by rewrite IH.
  - simpl. rewrite Ec. apply IH.
Qed.

Lemma collapse_ws_fixed b s : collapsed b s = true -> collapse_ws b s = s.
Proof.
  revert b. induction s as [|c s IH]; intros b; [done|]. simpl.
  destruct (isspace c) eqn:Ec.
  - intros [[Hc Hb]%andb_true_iff Hs]%andb_true_iff.
    apply Ascii.eqb_eq in Hc as ->. apply negb_true_iff in Hb as ->.
    by rewrite (IH _ Hs).
  - intros Hs. by rewrite (IH _ Hs).
Qed.

Lemma lstrip_collapsed s :
  collapsed false s = true -> collapsed true (lstrip isspace s) = true.
Proof.
  destruct s as [|c s]; [done|]. simpl. destruct (isspace c) eqn:Ec.
  - intros [_ Hs]%andb_true_iff.
    destruct s as [|d s]; [done|]. simpl in *.
    destruct (isspace d) eqn:Ed; [by rewrite andb_false_r in Hs|].
    simpl. by rewrite Ed.
  - intros Hs. simpl. by rewrite Ec.
Qed.

Lemma lstrip_fixed s : collapsed true s = true -> lstrip isspace s = s.
Proof.
  destruct s as [|c s]; [done|]. simpl. destruct (isspace c); [|done].
  by rewrite andb_false_r.
Qed.

Lemma rstrip_cons p c s :
  rstrip p (String c s)
  = if String.eqb (rstrip p s) "" then (if p c then "" else String c "")
    else String c (rstrip p s).
Proof. simpl. by destruct (rstrip p s). Qed.

Lemma rstrip_collapsed b s :
  collapsed b s = true -> collapsed b (rstrip isspace s) = true.
Proof.
  revert b. induction s as [|c s IH]; intros b; [done|].
  rewrite rstrip_cons. intros Hs.
  destruct (String.eqb (rstrip isspace s) "") eqn:Er.
  - destruct (isspace c) eqn:Ec; [done|]. simpl. by rewrite Ec.
  - simpl in *. destruct (isspace c).
    + apply andb_true_iff in Hs as [-> Hs]. by rewrite (IH _ Hs).
    + by apply IH.
Qed.

Lemma rstrip_no_trailing_space s : ends_with_space (rstrip isspace s) = false.
Proof.
  induction s as [|c s IH]; [done|]. rewrite rstrip_cons.
  destruct (String.eqb (rstrip isspace s) "") eqn:Er.
  - destruct (isspace c) eqn:Ec; [done|]. simpl. done.
  - destruct (rstrip isspace s) as [|d t]; [done|]. exact IH.
Qed.

Lemma rstrip_fixed s : ends_with_space s = false -> rstrip isspace s = s.
Proof.
  induction s as [|c s IH]; [done|]. rewrite rstrip_cons.
  destruct s as [|d t].
  - simpl. by intros ->.
  - intros Hs. change (ends_with_space (String d t) = false) in Hs.
    rewrite (IH Hs). done.
Qed.

(** X1.  The text that [normalize_text] returns is in normal form: its
    only white-space characters are single spaces, none of them next to
    another, and none at its start or end. *)
Theorem normalize_text_normalized s : normalized (normalize_text s) = true.
Proof.
  unfold normalized, normalize_text, strip. apply andb_true_iff. split.
  - apply rstrip_collapsed, lstrip_collapsed, collapse_ws_collapsed.
  - apply negb_true_iff, rstrip_no_trailing_space.
Qed.

Lemma normalized_fixed s : normalized s = true -> normalize_text s = s.
Proof.
  intros [Hc He%negb_true_iff]%andb_true_iff. unfold normalize_text, strip.
  rewrite (collapse_ws_fixed false) by by apply collapsed_weaken.
  rewrite (lstrip_fixed _ Hc). by apply rstrip_fixed.
Qed.

(** X2.  A text already in normal form is left as it is, so that
    normalising twice is normalising once. *)
Theorem normalize_text_idempotent :
  (forall s, normalized s = true -> normalize_text s = s)
  /\ (forall s, normalize_text (normalize_text s) = normalize_text s).
Proof.
  split; [apply normalized_fixed|].
  intros s. apply normalized_fixed, normalize_text_normalized.
Qed.

Lemma normalize_text_idempotent_witness :
  normalize_text "a b" = "a b".
Proof. apply (proj1 normalize_text_idempotent). reflexivity. Defined.

Lemma lstrip_all p s : all_chars p s = true -> lstrip p s = "".
Proof.
  induction s as [|c s IH]; [done|]. simpl.
  intros [-> Hs]%andb_true_iff. by apply IH.
Qed.

Lemma collapse_ws_space b s :
  all_chars isspace s = true -> all_chars isspace (collapse_ws b s) = true.
Proof.
  revert b. induction s as [|c s IH]; intros b; [done|]. simpl.
  intros [Hc Hs]%andb_true_iff. rewrite Hc. destruct b; [by apply IH|].
  simpl. by rewrite IH.
Qed.

Lemma collapse_ws_keeps b s c :
  isspace c = false -> contains c s = true -> contains c (collapse_ws b s) = true.
Proof.
  intros Hc. revert b. induction s as [|d s IH]; intros b; [done|]. simpl.
  destruct (Ascii.eqb c d) eqn:E.
  - apply Ascii.eqb_eq in E as <-. rewrite Hc. simpl. by rewrite Ascii.eqb_refl.
  - simpl. intros Hs. destruct (isspace d).
    + destruct b; [by apply IH|]. simpl. rewrite (IH _ Hs). by rewrite orb_true_r.
    + simpl. rewrite (IH _ Hs). by rewrite orb_true_r.
Qed.

Lemma lstrip_keeps s c :
  isspace c = false -> contains c s = true -> contains c (lstrip isspace s) = true.
Proof.
  intros Hc. induction s as [|d s IH]; [done|]. simpl.
  destruct (Ascii.eqb c d) eqn:E.
  - apply Ascii.eqb_eq in E as <-. rewrite Hc. simpl. by rewrite Ascii.eqb_refl.
  - simpl. intros Hs. destruct (isspace d); [by apply IH|].
    simpl. by rewrite E.
Qed.

Lemma rstrip_keeps s c :
  isspace c = false -> contains c s = true -> contains c (rstrip isspace s) = true.
Proof.
  intros Hc. induction s as [|d s IH]; [done|]. rewrite rstrip_cons. simpl.
  destruct (Ascii.eqb c d) eqn:E.
  - apply Ascii.eqb_eq in E as <-. rewrite Hc. intros _.
    destruct (String.eqb _ ""); simpl; by rewrite Ascii.eqb_refl.
  - simpl. intros Hs. specialize (IH Hs).
    destruct (String.eqb (rstrip isspace s) "") eqn:Er.
    + apply String.eqb_eq in Er. by rewrite Er in IH.
    + simpl. by rewrite IH, orb_true_r.
Qed.

Lemma collapse_ws_visible b s :
  remove_chars isspace (collapse_ws b s) = remove_chars isspace s.
Proof.
  revert b. induction s as [|c s IH]; intros b; [done|]. simpl.
  destruct (isspace c) eqn:Ec.
  - destruct b; [apply IH|]. simpl. apply IH.
  - simpl. rewrite Ec. by rewrite IH.
Qed.

Lemma lstrip_visible p s : remove_chars p (lstrip p s) = remove_chars p s.
Proof.
  induction s as [|c s IH]; [done|]. simpl.
  destruct (p c) eqn:Ec; [exact IH|]. simpl. by rewrite Ec.
Qed.

Lemma rstrip_visible p s : remove_chars p (rstrip p s) = remove_chars p s.
Proof.
  induction s as [|c s IH]; [done|]. rewrite rstrip_cons. simpl.
  destruct (String.eqb (rstrip p s) "") eqn:Er.
  - apply String.eqb_eq in Er. rewrite Er in IH. simpl in IH. rewrite <- IH.
    destruct (p c) eqn:Ec; [done|]. simpl. by rewrite Ec.
  - simpl. by rewrite IH.
Qed.

(** X3.  [normalize_text] neither loses, adds nor reorders a character
    that is not white space: with the white space taken out, its result
    and its argument are the same text.  In particular every such
    character of the argument occurs in the result, and the result is
    the empty text exactly for the texts made of white space only. *)
Theorem normalize_text_keeps_visible s :
  remove_chars isspace (normalize_text s) = remove_chars isspace s
  /\ (forall c, isspace c = false -> contains c s = true ->
                contains c (normalize_text s) = true)
  /\ (normalize_text s = "" <-> all_chars isspace s = true).
Proof.
  split.
  { unfold normalize_text, strip.
    by rewrite rstrip_visible, lstrip_visible, collapse_ws_visible. }
  split.
  { intros c Hc Hs. unfold normalize_text, strip.
    by apply rstrip_keeps, lstrip_keeps, collapse_ws_keeps. }
  split.
  - intros He. destruct (all_chars isspace s) eqn:Ha; [done|].
    assert (Hex : exists c, isspace c = false /\ contains c s = true).
    { clear He. induction s as [|d s IH]; [done|]. simpl in Ha.
      destruct (isspace d) eqn:Ed.
      - destruct (IH Ha) as (c & ? & Hc). exists c. split; [done|].
        simpl. by rewrite Hc, orb_true_r.
      - exists d. split; [done|]. simpl. by rewrite Ascii.eqb_refl. }
    destruct Hex as (c & Hc & Hs).
    assert (Hk : contains c (normalize_text s) = true).
    { unfold normalize_text, strip.
      by apply rstrip_keeps, lstrip_keeps, collapse_ws_keeps. }
    by rewrite He in Hk.
  - intros Ha. unfold normalize_text, strip.
    rewrite lstrip_all; [done|]. by apply collapse_ws_space.
Qed.

Lemma normalize_text_keeps_visible_witness :
  remove_chars isspace (normalize_text "  a   b ") = "ab"
  /\ contains "b" (normalize_text "  a   b ") = true.
Proof.
  split.
  - rewrite (proj1 (normalize_text_keeps_visible "  a   b ")). reflexivity.
  - apply (proj1 (proj2 (normalize_text_keeps_visible "  a   b "))); reflexivity.
Defined.

(** ** Facts about [extract_content] *)

Lemma length_take n s : String.length (take n s) = Nat.min n (String.length s).
Proof.
  revert s. induction n as [|n IH]; intros [|c s]; simpl; try done.
  by rewrite IH.
Qed.

Lemma length_append s t :
  String.length (s +:+ t) = String.length s + String.length t.
Proof. induction s as [|c s IH]; [done|]. simpl. by rewrite IH. Qed.

(** X4.  The title, the meta description and the h1 of every extracted
    record are in normal form (single inner spaces, none at the ends);
    the content length is not negative and the score is at least the
    content length. *)
Theorem extract_content_fields soup0 :
  normalized (title (extract_content soup0).1) = true
  /\ normalized (meta_description (extract_content soup0).1) = true
  /\ normalized (h1 (extract_content soup0).1) = true
  /\ (0 <= content_length (extract_content soup0).1
      <= score (extract_content soup0).1)%Z.
Proof.
  unfold extract_content. cbn [fst title meta_description h1 content_length score].
  set (soup := Bs4.decompose_all BOILERPLATE soup0).
  split. { destruct (Bs4.find (Bs4.named "title") soup);
           [apply normalize_text_normalized|done]. }
  split. { unfold extract_meta_desc.
           repeat destruct (has_content _); try apply normalize_text_normalized; done. }
  split. { destruct (Bs4.find (Bs4.named "h1") soup);
           [apply normalize_text_normalized|done]. }
  unfold len. lia.
Qed.

(** X5.  The snippet is the whole content when that has at most 240
    characters, and otherwise its first 240 characters followed by three
    dots: it is never longer than 243 characters. *)
Theorem snippet_length soup0 :
  len (content_snippet (extract_content soup0).1)
  = (if (content_length (extract_content soup0).1 <=? 240)%Z
     then content_length (extract_content soup0).1
     else 243)%Z
  /\ (len (content_snippet (extract_content soup0).1) <= 243)%Z.
Proof.
  unfold extract_content. cbn [fst content_snippet content_length].
  set (ct := match _ with Some m => normalize_text _ | None => "" end).
  assert (Hl : len (take 240 ct +:+ (if (240 <? len ct)%Z then "..." else ""))
               = (if (len ct <=? 240)%Z then len ct else 243)%Z).
  { unfold len. rewrite length_append, length_take.
    destruct (240 <? Z.of_nat (String.length ct))%Z eqn:E1;
      destruct (Z.of_nat (String.length ct) <=? 240)%Z eqn:E2;
      change (String.length "...") with 3; change (String.length "") with 0;
      lia. }
  split; [exact Hl|]. rewrite Hl. destruct (len ct <=? 240)%Z eqn:E; lia.
Qed.

(** *** The boilerplate tags *)

Lemma node_ind_all (P : Bs4.node -> Prop) :
  (forall s, P (Bs4.NavigableString s)) ->
  (forall nm at_ cs, Forall P cs -> P (Bs4.Tag nm at_ cs)) ->
  forall n, P n.
Proof.
  intros Hs Ht. fix IH 1. intros [s|nm at_ cs]; [apply Hs|].
  apply Ht. induction cs as [|c cs IHcs]; constructor; [apply IH|apply IHcs].
Qed.

Lemma decompose_node_fixed names n n' :
  Bs4.decompose_node names n = Some n' -> Bs4.decompose_node names n' = Some n'.
Proof.
  revert n'. induction n as [s|nm at_ cs IH] using node_ind_all; intros n'; simpl.
  { by intros [= <-]. }
  destruct (str_in nm names) eqn:E; [done|]. intros [= <-]. simpl. rewrite E.
  do 2 f_equal. induction IH as [|c cs Hc _ IHcs]; [done|]. simpl.
  destruct (Bs4.decompose_node names c) as [c'|] eqn:Ec; simpl; [|done].
  rewrite (Hc _ eq_refl). simpl. f_equal. exact IHcs.
Qed.

Lemma decompose_all_fixed names s :
  Bs4.decompose_all names (Bs4.decompose_all names s) = Bs4.decompose_all names s.
Proof.
  unfold Bs4.decompose_all. induction s as [|c cs IH]; [done|]. simpl.
  destruct (Bs4.decompose_node names c) as [c'|] eqn:Ec; simpl; [|done].
  rewrite (decompose_node_fixed _ _ _ Ec). simpl. f_equal. exact IH.
Qed.

Lemma decompose_node_clean names n n' :
  Bs4.decompose_node names n = Some n' ->
  List.filter (Bs4.is_tag (Bs4.named_any names)) (Bs4.descendants_node n') = [].
Proof.
  revert n'. induction n as [s|nm at_ cs IH] using node_ind_all; intros n'; simpl.
  { by intros [= <-]. }
  destruct (str_in nm names) eqn:E; [done|]. intros [= <-]. simpl.
  unfold Bs4.named_any at 1. rewrite E.
  induction IH as [|c cs Hc _ IHcs]; [done|]. simpl.
  destruct (Bs4.decompose_node names c) as [c'|] eqn:Ec; simpl; [|done].
  rewrite List.filter_app, (Hc _ eq_refl). exact IHcs.
Qed.

Lemma decompose_all_clean names s :
  Bs4.find_all (Bs4.named_any names) (Bs4.decompose_all names s) = [].
Proof.
  unfold Bs4.find_all, Bs4.descendants, Bs4.decompose_all.
  induction s as [|c cs IH]; [done|]. simpl.
  destruct (Bs4.decompose_node names c) as [c'|] eqn:Ec; simpl; [|done].
  rewrite List.filter_app, (decompose_node_clean _ _ _ Ec). exact IH.
Qed.

Lemma decompose_node_sublist {B} (g : Bs4.node -> option B) names n :
  shallow g ->
  omap g (from_option Bs4.descendants_node [] (Bs4.decompose_node names n))
  `sublist_of` omap g (Bs4.descendants_node n).
Proof.
  intros Hg. induction n as [s|nm at_ cs IH] using node_ind_all; simpl; [done|].
  destruct (str_in nm names); simpl; [apply sublist_nil_l|].
  rewrite (Hg nm at_ _ cs).
  assert (Hcs : omap g (flat_map Bs4.descendants_node (omap (Bs4.decompose_node names) cs))
                `sublist_of` omap g (flat_map Bs4.descendants_node cs)).
  { induction IH as [|c cs Hc _ IHcs]; [done|]. simpl.
    rewrite omap_app. destruct (Bs4.decompose_node names c) as [c'|]; simpl in *.
    - rewrite omap_app. by apply sublist_app.
    - by apply sublist_inserts_l. }
  destruct (g (Bs4.Tag nm at_ cs)); [by apply sublist_skip|done].
Qed.

Lemma decompose_all_sublist {B} (g : Bs4.node -> option B) names s :
  shallow g ->
  omap g (Bs4.descendants (Bs4.decompose_all names s))
  `sublist_of` omap g (Bs4.descendants s).
Proof.
  intros Hg. unfold Bs4.descendants, Bs4.decompose_all.
  induction s as [|c cs IH]; [done|]. simpl. rewrite omap_app.
  pose proof (decompose_node_sublist g names c Hg) as Hc.
  destruct (Bs4.decompose_node names c) as [c'|]; simpl in *.
  - rewrite omap_app. by apply sublist_app.
  - by apply sublist_inserts_l.
Qed.

Lemma omap_filter {A B} (f : A -> option B) (p : A -> bool) (l : list A) :
  omap f (List.filter p l) = omap (fun x => if p x then f x else None) l.
Proof.
  induction l as [|x l IH]; [done|]. simpl.
  destruct (p x); simpl; [|exact IH]. destruct (f x); [|exact IH].
  f_equal. exact IH.
Qed.

(** X6.  After [extract_content] the soup holds no script, style, nav,
    footer, header, aside or noscript tag; the links that the crawl loop
    then reads from it are, in order, among the links of the page as it
    was fetched (those inside the removed tags are lost); and extracting
    once more from the emptied soup gives the same record. *)
Theorem extract_content_strips_boilerplate soup0 :
  Bs4.find_all (Bs4.named_any BOILERPLATE) (extract_content soup0).2 = []
  /\ anchor_hrefs (extract_content soup0).2 `sublist_of` anchor_hrefs soup0
  /\ extract_content (extract_content soup0).2 = extract_content soup0.
Proof.
  split; [apply decompose_all_clean|]. split.
  - unfold anchor_hrefs, Bs4.find_all. rewrite !omap_filter.
    apply decompose_all_sublist. by intros nm at_ cs cs'.
  - unfold extract_content. cbn [snd]. by rewrite decompose_all_fixed.
Qed.

(** ** Facts about [save_csv] and [main] *)

Lemma insert_by_score_perm x l : insert_by_score x l ≡ₚ x :: l.
Proof.
  induction l as [|y l IH]; [done|]. simpl.
  destruct (score (data x) <? score (data y))%Z; [|done].
  rewrite IH. apply Permutation_swap.
Qed.

Lemma insert_by_score_sorted x l :
  StronglySorted by_score_desc l -> StronglySorted by_score_desc (insert_by_score x l).
Proof.
  induction 1 as [|y l Hs IH Hy]; simpl; [repeat constructor|].
  destruct (score (data x) <? score (data y))%Z eqn:E.
  - apply Z.ltb_lt in E. constructor; [done|].
    rewrite insert_by_score_perm. constructor; [unfold by_score_desc; lia|done].
  - apply Z.ltb_ge in E. constructor; [by constructor|].
    constructor; [done|]. eapply Forall_impl; [exact Hy|].
    unfold by_score_desc. intros z Hz. lia.
Qed.

Lemma insert_by_score_with_score k x l :
  with_score k (insert_by_score x l) = with_score k (x :: l).
Proof.
  induction l as [|y l IH]; [done|]. simpl.
  destruct (score (data x) <? score (data y))%Z eqn:E; [|done].
  apply Z.ltb_lt in E. simpl in *. rewrite IH.
  destruct (score (data x) =? k)%Z eqn:Ex; [|done].
  destruct (score (data y) =? k)%Z eqn:Ey; [|done]. lia.
Qed.

(** X7.  The rows that [save_csv] sorts are the rows it was given, each
    as often as before, in descending order of score, and rows of equal
    score stay in the order in which the crawl produced them. *)
Theorem sorted_by_score_spec rows :
  sorted_by_score rows ≡ₚ rows
  /\ StronglySorted by_score_desc (sorted_by_score rows)
  /\ (forall k, with_score k (sorted_by_score rows) = with_score k rows).
Proof.
  unfold sorted_by_score. induction rows as [|x l (IH1 & IH2 & IH3)]; simpl.
  { split; [done|]. split; [constructor|done]. }
  split. { by rewrite insert_by_score_perm, IH1. }
  split. { by apply insert_by_score_sorted. }
  intros k. rewrite insert_by_score_with_score. simpl. by rewrite IH3.
Qed.

Lemma with_score_elem k r l : r ∈ l -> score (data r) = k -> r ∈ with_score k l.
Proof.
  intros Hin Hk. unfold with_score. apply list_elem_of_In, List.filter_In.
  split; [by apply list_elem_of_In|]. by apply Z.eqb_eq.
Qed.

Lemma with_score_inv k r l : r ∈ with_score k l -> r ∈ l /\ score (data r) = k.
Proof.
  unfold with_score. intros [Hin Hk%Z.eqb_eq]%list_elem_of_In%List.filter_In.
  split; [by apply list_elem_of_In|done].
Qed.

Lemma sorted_head_max x l r :
  StronglySorted by_score_desc (x :: l) -> r ∈ x :: l ->
  (score (data r) <= score (data x))%Z.
Proof.
  intros Hs Hin. apply StronglySorted_inv in Hs as [_ Hx].
  apply elem_of_cons in Hin as [->|Hin]; [lia|].
  rewrite Forall_forall in Hx. by apply Hx.
Qed.

Lemma sorted_same_groups l1 l2 :
  StronglySorted by_score_desc l1 -> StronglySorted by_score_desc l2 ->
  (forall k, with_score k l1 = with_score k l2) -> l1 = l2.
Proof.
  intros H1. revert l2. induction H1 as [|x l1 Hs1 IH Hx]; intros l2 H2 Hk.
  { destruct l2 as [|y l2]; [done|]. specialize (Hk (score (data y))).
    simpl in Hk. by rewrite Z.eqb_refl in Hk. }
  destruct l2 as [|y l2].
  { specialize (Hk (score (data x))). simpl in Hk. by rewrite Z.eqb_refl in Hk. }
  assert (Hxy : score (data x) = score (data y)).
  { assert (Hx2 : x ∈ with_score (score (data x)) (y :: l2)).
    { rewrite <- Hk. apply with_score_elem; [left|done]. }
    assert (Hy1 : y ∈ with_score (score (data y)) (x :: l1)).
    { rewrite Hk. apply with_score_elem; [left|done]. }
    apply with_score_inv in Hx2 as [Hx2 _]. apply with_score_inv in Hy1 as [Hy1 _].
    pose proof (sorted_head_max _ _ _ H2 Hx2).
    pose proof (sorted_head_max _ _ _ (SSorted_cons x Hs1 Hx) Hy1). lia. }
  pose proof (Hk (score (data x))) as Hkx. simpl in Hkx.
  rewrite Z.eqb_refl, <- Hxy, Z.eqb_refl in Hkx. injection Hkx as <- Hrest.
  f_equal. apply IH; [by apply StronglySorted_inv in H2 as []|].
  intros k. destruct (Z.eq_dec (score (data x)) k) as [<-|Hne]; [done|].
  specialize (Hk k). simpl in Hk. apply Z.eqb_neq in Hne. by rewrite Hne in Hk.
Qed.

(** X8.  The sorted list is the only arrangement of the rows that is in
    descending order of score and keeps the rows of each score in their
    original order: whatever stable sort computes it, the result is the
    one of [sorted_by_score]. *)
Theorem sorted_by_score_unique rows l :
  StronglySorted by_score_desc l ->
  (forall k, with_score k l = with_score k rows) ->
  l = sorted_by_score rows.
Proof.
  intros Hs Hk. destruct (sorted_by_score_spec rows) as (_ & Hs' & Hk').
  apply sorted_same_groups; [done|done|]. intros k. by rewrite Hk, Hk'.
Qed.

Lemma sorted_by_score_unique_witness :
  [mkPage (mkContent "" "" "" "" 9 9) "b"; mkPage (mkContent "" "" "" "" 1 1) "a"]
  = sorted_by_score
      [mkPage (mkContent "" "" "" "" 1 1) "a"; mkPage (mkContent "" "" "" "" 9 9) "b"].
Proof.
  apply sorted_by_score_unique.
  - apply SSorted_cons; [apply SSorted_cons; constructor|].
    constructor; [|constructor]. unfold by_score_desc. simpl. lia.
  - intros k. unfold with_score. cbn [List.filter data score].
    destruct (9 =? k)%Z eqn:E9; destruct (1 =? k)%Z eqn:E1; try reflexivity.
    apply Z.eqb_eq in E9, E1. lia.
Defined.

Lemma sorted_app_dominates (a b : list PageRecord) :
  StronglySorted by_score_desc (a ++ b) ->
  forall w d, w ∈ a -> d ∈ b -> (score (data d) <= score (data w))%Z.
Proof.
  induction a as [|x a IH]; simpl; intros Hs w d Hw Hd.
  { by apply elem_of_nil in Hw. }
  apply StronglySorted_inv in Hs as [Hs Hx].
  apply elem_of_cons in Hw as [->|Hw]; [|by apply IH].
  rewrite Forall_forall in Hx. apply Hx. apply elem_of_app. by right.
Qed.

(** X9.  [save_csv] writes the first rows of the sorted list: all of
    them when [top_n] is 0, the [top_n] first (or all, if there are
    fewer) when it is positive, and all but the last [-top_n] when it is
    negative.  No row it leaves out has a higher score than a row it
    writes. *)
Theorem save_csv_keeps_top rows top_n :
  Z.of_nat (length (save_csv_rows rows top_n))
  = (if (top_n =? 0)%Z then Z.of_nat (length rows)
     else if (0 <? top_n)%Z then Z.min top_n (Z.of_nat (length rows))
     else Z.max (Z.of_nat (length rows) + top_n) 0)
  /\ exists dropped,
      sorted_by_score rows = save_csv_rows rows top_n ++ dropped
      /\ forall w d, w ∈ save_csv_rows rows top_n -> d ∈ dropped ->
                     (score (data d) <= score (data w))%Z.
Proof.
  destruct (sorted_by_score_spec rows) as (Hp & Hs & _).
  assert (Hlen : length (sorted_by_score rows) = length rows)
    by (by rewrite Hp).
  assert (Hcut : forall n,
    exists dropped,
      sorted_by_score rows = firstn n (sorted_by_score rows) ++ dropped
      /\ forall w d, w ∈ firstn n (sorted_by_score rows) -> d ∈ dropped ->
                     (score (data d) <= score (data w))%Z).
  { intros n. exists (skipn n (sorted_by_score rows)).
    split; [by rewrite firstn_skipn|].
    apply sorted_app_dominates. by rewrite firstn_skipn. }
  unfold save_csv_rows, slice_to. destruct (top_n =? 0)%Z eqn:E0; simpl.
  { split; [by rewrite Hlen|]. exists []. split; [by rewrite app_nil_r|].
    intros w d _ Hd. by apply elem_of_nil in Hd. }
  apply Z.eqb_neq in E0. rewrite Hlen.
  destruct (top_n <? 0)%Z eqn:En; destruct (0 <? top_n)%Z eqn:Ep; try lia;
    (split; [rewrite length_firstn, Hlen; lia|apply Hcut]).
Qed.

(** X10.  [main] writes nothing when the crawl returned no row.
    Otherwise the number of pages it announces is the number of rows it
    wrote whenever [--top] is at least 1; with [--top 0] it writes every
    row and announces 0. *)
Theorem main_report_counts rows top :
  (rows = [] -> main_report rows top = NothingProcessed)
  /\ (rows <> [] ->
      exists written announced,
        main_report rows top = CsvWritten written announced
        /\ (1 <= top -> announced = Z.of_nat (length written))%Z
        /\ (top = 0%Z ->
            announced = 0%Z /\ length written = length rows)).
Proof.
  split; [by intros ->|]. intros Hne.
  destruct rows as [|r rows]; [done|].
  eexists _, _. split; [reflexivity|].
  destruct (save_csv_keeps_top (r :: rows) top) as [Hl _].
  split.
  - intros Ht. rewrite Hl.
    destruct (top =? 0)%Z eqn:E0; [lia|]. destruct (0 <? top)%Z eqn:Ep; lia.
  - intros ->. simpl in Hl. split; [simpl; lia|]. simpl. lia.
Qed.

Lemma main_report_counts_witness :
  main_report [mkPage (mkContent "" "" "" "" 1 1) "a"] 0
  = CsvWritten [mkPage (mkContent "" "" "" "" 1 1) "a"] 0.
Proof.
  destruct (proj2 (main_report_counts [mkPage (mkContent "" "" "" "" 1 1) "a"] 0)
              ltac:(discriminate)) as (w & a & Hm & _ & H0).
  destruct (H0 eq_refl) as [-> _]. rewrite Hm. vm_compute in Hm.
  by injection Hm as <-.
Defined.

(** ** Further facts about the URL filter *)

Section Canonical.
Context `{Ipaddress}.

Lemma urlparse_split u p :
  urlparse u = Some p ->
  exists r, urlsplit u = Some r
            /\ scheme p = s_scheme r /\ netloc p = s_netloc r
            /\ query p = s_query r /\ fragment p = s_fragment r
            /\ (str_in (s_scheme r) uses_params = true ->
                split_params (s_url r) = (path p, params p)).
Proof.
  unfold urlparse. destruct (urlsplit u) as [r|]; [|done].
  match goal with
  | |- context [if ?b then _splitparams ?x else ?y] =>
      destruct (if b then _splitparams x else y) as [pa pr] eqn:Ep
  end.
  intros [= <-]. exists r. cbn [scheme netloc path params query fragment].
  do 5 (split; [done|]).
  intros Hu. rewrite Hu in Ep. exact Ep.
Qed.

(** The layout of an accepted URL once written back. *)
Lemma geturl_form u p :
  urlparse u = Some p -> web_scheme (scheme p) -> netloc p <> "" ->
  geturl (replace_fragment p "")
  = scheme p +:+ String ":" ("//" +:+ netloc p
                             +:+ with_params (path p) (params p)
                             +:+ qpart (query p))
  /\ all_chars safe (netloc p +:+ with_params (path p) (params p)
                     +:+ qpart (query p)) = true.
Proof.
  intros Hp Hw Hn.
  destruct (urlparse_split u p Hp) as (r & Hr & Es & En & Eq & _ & Hsp).
  rewrite En in Hn.
  destruct (urlsplit_inv _ _ Hr Hn) as (Hsafe & _ & _ & _ & _ & Hsl).
  assert (Hup : str_in (s_scheme r) uses_params = true).
  { rewrite <- Es. by destruct Hw as [-> | ->]. }
  destruct (split_params_stable _ _ _ (Hsp Hup)) as (Hall & Hsl' & _).
  specialize (Hsl' Hsl).
  rewrite !all_chars_app in Hsafe. bsplit.
  assert (Hne : scheme p <> "") by (by destruct Hw as [-> | ->]).
  rewrite <- En in Hn. split.
  - unfold geturl, urlunparse, replace_fragment. simpl.
    fold (with_params (path p) (params p)).
    by apply geturl_layout.
  - rewrite !all_chars_app, En, Eq. bgoal; [by apply Hall|].
    unfold qpart. destruct (String.eqb (s_query r) ""); [done|]. simpl. done.
Qed.

Lemma clean_url_fixed u r : clean_url u = Some r -> clean_url r = Some r.
Proof.
  intros Hc. unfold clean_url in Hc.
  destruct (urlparse u) as [p|] eqn:Hp; [|done].
  destruct (clean_url_cases u p Hp) as [[_ Hc']|(Hr & Hw & Hn & Hc')];
    unfold clean_url in Hc'; rewrite Hp in Hc'; rewrite Hc' in Hc;
    injection Hc as <-; [reflexivity|].
  destruct (urlparse_geturl u p Hp Hw Hn) as [Hrt _].
  destruct (clean_url_cases _ _ Hrt) as [[Hr' _]|(_ & _ & _ & Hc2)]; [|done].
  exfalso. apply Hr. exact Hr'.
Qed.

(** X11.  Every URL that [clean_url] lets through begins with
    ["http://"] or ["https://"], holds no ['#'] and no tab, carriage
    return or line feed, and parses into an http or https URL with a
    netloc, no fragment and a path outside the skip list. *)
Theorem clean_url_result_form u r :
  clean_url u = Some r -> r <> "" ->
  (startswith "http://" r || startswith "https://" r = true)
  /\ contains "#" r = false
  /\ all_chars safe r = true
  /\ exists p, urlparse r = Some p /\ ~ rejected p /\ fragment p = "".
Proof.
  intros Hc Hne. unfold clean_url in Hc.
  destruct (urlparse u) as [p|] eqn:Hp; [|done].
  destruct (clean_url_cases u p Hp) as [[_ Hc']|(Hr & Hw & Hn & Hc')];
    unfold clean_url in Hc'; rewrite Hp in Hc'; rewrite Hc' in Hc;
    injection Hc as <-; [done|].
  destruct (urlparse_geturl u p Hp Hw Hn) as [Hrt Hh].
  destruct (geturl_form u p Hp Hw Hn) as [Hg Hs].
  split. { rewrite Hg. destruct Hw as [-> | ->]; reflexivity. }
  split; [done|]. split.
  { assert (Hx : forall x, all_chars safe (String ":" ("//" +:+ x))
                             = all_chars safe x) by reflexivity.
    rewrite Hg, all_chars_app, Hx, Hs. by destruct Hw as [-> | ->]. }
  exists (replace_fragment p ""). split; [done|]. split; [|done].
  intros Hr'. apply Hr. exact Hr'.
Qed.

End Canonical.

Lemma clean_url_result_form_witness :
  contains "#" "http://a.co/x;p?q" = false.
Proof.
  apply (@clean_url_result_form no_ipv6 "HTTP://a.co/x;p?q#frag" "http://a.co/x;p?q");
    [reflexivity|discriminate].
Defined.

(** ** Further facts about the domain scope *)

Lemma endswith_app a b : endswith (a +:+ b) b = true.
Proof.
  induction a as [|c a IH]; simpl.
  - destruct b as [|d b]; [reflexivity|].
    change ("" +:+ String d b) with (String d b).
    cbn [endswith]. by rewrite String.eqb_refl.
  - by rewrite IH, orb_true_r.
Qed.

Lemma endswith_suffix s suf :
  endswith s suf = true <-> exists pre, s = pre +:+ suf.
Proof.
  split.
  - induction s as [|c s IH]; simpl.
    + rewrite orb_false_r. intros ->%String.eqb_eq. by exists "".
    + intros [->%String.eqb_eq|Hs]%orb_true_iff; [by exists ""|].
      destruct (IH Hs) as [pre ->]. by exists (String c pre).
  - intros [pre ->]. apply endswith_app.
Qed.





Section Scope.
Context `{Ipaddress}.

(** X12.  [same_domain] holds of a URL exactly when its lower-cased
    netloc is the base domain or some text followed by a dot and the
    base domain; a host that merely ends in the letters of the base
    domain is outside. *)
Theorem same_domain_iff url q bd :
  urlparse url = Some q ->
  (same_domain url bd = Some true
   <-> lower (netloc q) = bd
       \/ exists pre, lower (netloc q) = pre +:+ String "." bd).
Proof.
  intros Hq. unfold same_domain. rewrite Hq. split.
  - intros [= [->%String.eqb_eq|Hs]%orb_true_iff]; [by left|right].
    by apply endswith_suffix.
  - intros [->|Hs].
    + by rewrite String.eqb_refl.
    + apply endswith_suffix in Hs. rewrite Hs. by rewrite orb_true_r.
Qed.


End Scope.

Lemma same_domain_iff_witness :
  @same_domain no_ipv6 "http://Blog.Example.com/p" "example.com" = Some true.
Proof.
  apply (@same_domain_iff no_ipv6 "http://Blog.Example.com/p"
           (mkParse "http" "Blog.Example.com" "/p" "" "" "") "example.com" eq_refl).
  right. by exists "blog".
Defined.


(** ** Further facts about the politeness gate *)

Section Robots.
Context `{Ipaddress}.

Lemma robots_url_parses u p :
  urlparse u = Some p -> web_scheme (scheme p) -> netloc p <> "" ->
  urlparse (robots_url p)
  = Some (mkParse (scheme p) (netloc p) "/robots.txt" "" "" "").
Proof.
  intros Hp Hw Hn.
  destruct (urlparse_split u p Hp) as (r & Hr & Es & En & _).
  rewrite En in Hn.
  destruct (urlsplit_inv _ _ Hr Hn) as (Hsafe & Hnd & Hb & _).
  rewrite !all_chars_app in Hsafe. bsplit.
  assert (Hs : urlsplit (robots_url p)
               = Some (mkSplit (scheme p) (netloc p) "/robots.txt" "" "")).
  { pose proof (urlsplit_canonical (scheme p) (netloc p) "/robots.txt" "" Hw) as Hc.
    unfold qpart in Hc. change (String.eqb "" "") with true in Hc. cbv iota in Hc.
    rewrite !app_empty_r in Hc. unfold robots_url.
    change ("://" +:+ ?x) with (String ":" ("//" +:+ x)).
    apply Hc; rewrite ?En; try done.
    - rewrite all_chars_app. bgoal.
    - by right. }
  unfold urlparse. rewrite Hs. cbn [s_scheme s_netloc s_url s_query s_fragment].
  change (contains ";" "/robots.txt") with false. by rewrite andb_false_r.
Qed.

(** X14.  For an http or https base URL with a host, the gate built
    from the answer to [<scheme>://<netloc>/robots.txt] depends on that
    answer as follows: status 401 or 403 closes it for every URL; any
    other status from 400 to 499 opens it for every URL; any other HTTP
    error (a 5xx, say) closes it for every URL; a body that was read at
    a time other than 0 makes the gate follow the parsed rules. *)
Theorem robots_gate_by_status
    (open : string -> Robotparser.urlopen_result) base_url p rp :
  urlparse base_url = Some p -> web_scheme (scheme p) -> netloc p <> "" ->
  build_robot_parser open base_url = Some rp ->
  (forall code, open (robots_url p) = Robotparser.HTTPError code ->
     forall ua u,
       Robotparser.can_fetch rp ua u
       = Some (negb ((code =? 401) || (code =? 403))%Z
               && ((400 <=? code) && (code <? 500))%Z))
  /\ (forall now rules, open (robots_url p) = Robotparser.Fetched now rules ->
        Qeq_bool now 0 = false ->
        forall ua u, Robotparser.can_fetch rp ua u = rules ua u).
Proof.
  intros Hp Hw Hn. unfold build_robot_parser. rewrite Hp.
  fold (robots_url p). unfold Robotparser.set_url.
  rewrite (robots_url_parses _ _ Hp Hw Hn). intros [= <-]. split.
  - intros code ->. intros ua u. unfold Robotparser.read, Robotparser.can_fetch.
    destruct ((code =? 401)%Z || (code =? 403)%Z); [done|].
    destruct ((400 <=? code)%Z && (code <? 500)%Z); done.
  - intros now rules -> Hnow ua u. unfold Robotparser.read, Robotparser.can_fetch.
    simpl. by rewrite Hnow.
Qed.

End Robots.

Lemma robots_gate_by_status_witness :
  exists rp,
    @build_robot_parser no_ipv6 (@urlopen site_test) "http://site.test/" = Some rp
    /\ Robotparser.can_fetch rp "*" "http://site.test/a" = Some true.
Proof.
  eexists. split; [reflexivity|].
  apply (proj1 (@robots_gate_by_status no_ipv6 (@urlopen site_test) "http://site.test/"
                  (mkParse "http" "site.test" "/" "" "" "") _
                  eq_refl ltac:(by left) ltac:(discriminate) eq_refl) 404%Z eq_refl).
Defined.

(** ** Further facts about the crawl loop *)

Section Run.
Context `{Ipaddress} `{World}.

(** The ways through the body that reach the next iteration, with all
    that was tested on the way. *)
Lemma iteration_cases c st st' :
  iteration c st = Continue st' ->
  exists url0 q u,
    queue st = url0 :: q
    /\ (Z.of_nat (size (visited st)) < max_pages c)%Z
    /\ clean_url url0 = Some u
    /\ (((u = "" \/ u ∈ visited st)
         /\ st' = mkState (visited st) q (results st) (trace st))
        \/ (u <> "" /\ (u ∉ visited st)
            /\ ((Robotparser.can_fetch (rp c) "*" u = Some false
                 /\ st' = mkState ({[u]} ∪ visited st) q (results st) (trace st))
                \/ (Robotparser.can_fetch (rp c) "*" u = Some true
                    /\ ((fetch_failed (session_get (length (trace st)) u) = true
                         /\ st' = mkState ({[u]} ∪ visited st) q (results st)
                                    (trace st ++ [EFetch u]))
                        \/ exists resp q',
                            session_get (length (trace st)) u = Got resp
                            /\ fetch_failed (Got resp) = false
                            /\ enqueue_links (base_domain c) (visited st) u
                                 (anchor_hrefs (extract_content (text_soup resp)).2) q
                               = (q', true)
                            /\ st' = mkState ({[u]} ∪ visited st) q'
                                       (results st
                                        ++ [mkPage (extract_content (text_soup resp)).1 u])
                                       (trace st ++ [EFetch u; ESleep (delay c)])))))).
Proof.
  unfold iteration. destruct (queue st) as [|url0 q] eqn:Eq; [done|].
  destruct (Z.of_nat _ <? _)%Z eqn:Elt; [|done]. apply Z.ltb_lt in Elt.
  destruct (clean_url url0) as [u|] eqn:Ec; [|done]. cbn [negb].
  intros Hst. exists url0, q, u. do 3 (split; [done|]).
  destruct (String.eqb u "") eqn:Ee; cbn [orb] in Hst.
  { left. injection Hst as <-. apply String.eqb_eq in Ee. auto. }
  apply String.eqb_neq in Ee.
  destruct (bool_decide (u ∈ visited st)) eqn:Ed.
  { left. injection Hst as <-. apply bool_decide_eq_true in Ed. auto. }
  apply bool_decide_eq_false in Ed. cbv iota in Hst.
  right. do 2 (split; [done|]).
  destruct (Robotparser.can_fetch _ _ _) as [[|]|] eqn:Er; [| |done].
  2:{ left. injection Hst as Hst. by split. }
  right. split; [done|].
  destruct (session_get _ _) as [|resp] eqn:Eg.
  { left. by injection Hst as <-. }
  destruct (negb (status_code resp =? 200)%Z) eqn:Es.
  { left. injection Hst as <-. simpl. by rewrite Es. }
  destruct (not_html (content_type resp)) eqn:Eh.
  { left. injection Hst as <-. simpl. by rewrite Es, Eh. }
  right.
  destruct (extract_content (text_soup resp)) as [d soup] eqn:Ee'.
  destruct (enqueue_links _ _ _ _ _) as [q' [|]] eqn:El; [|done].
  injection Hst as <-. exists resp, q'. split; [done|].
  split; [unfold fetch_failed; by rewrite Es, Eh|].
  rewrite Ee'. cbn [fst snd]. split; [exact El|]. by rewrite <- app_assoc.
Qed.

Lemma enqueue_links_scope bd vis page_url hrefs q q' ok x :
  enqueue_links bd vis page_url hrefs q = (q', ok) ->
  x ∈ q' -> x ∈ q \/ (in_scope bd x /\ x ∉ vis).
Proof.
  revert q q' ok. induction hrefs as [|a rest IH]; intros q q' ok; simpl.
  { intros [= <- <-]. auto. }
  destruct (urljoin page_url a) as [joined|]; [|intros [= <- <-]; auto].
  destruct (clean_url joined) as [href|] eqn:Hc; [|intros [= <- <-]; auto].
  destruct (String.eqb href "") eqn:Ee; [by apply IH|].
  destruct (same_domain href bd) as [[|]|] eqn:Hs;
    [|by apply IH|intros [= <- <-]; auto].
  destruct (bool_decide (href ∈ vis)) eqn:Ed; [by apply IH|].
  intros He Hx. destruct (IH _ _ _ He Hx) as [Hin|?]; [|by right].
  apply elem_of_app in Hin as [?| ->%list_elem_of_singleton]; [by left|right].
  apply String.eqb_neq in Ee. apply bool_decide_eq_false in Ed.
  split; [|done]. split; [done|]. split; [|done]. by apply (clean_url_fixed joined).
Qed.

Lemma crawl_loop_rtc fuel c st0 st :
  crawl_loop fuel c st0 = Returned st ->
  rtc (next c) st0 st /\ iteration c st = Exit.
Proof.
  revert st0. induction fuel as [|fuel IH]; intros st0; simpl; [done|].
  destruct (iteration c st0) as [|st1|st1] eqn:Hit; [| |done].
  - by intros [= <-].
  - intros Hl. destruct (IH _ Hl) as [Hr He]. split; [|done].
    by apply (rtc_l _ _ st1).
Qed.

Lemma run_invariant c b (P : state -> Prop) :
  P (initial_state b) ->
  (forall st st', P st -> iteration c st = Continue st' -> P st') ->
  forall st, rtc (next c) (initial_state b) st -> P st.
Proof.
  intros H0' Hs. apply rtc_ind_r; [done|].
  intros st st' _ Hit HP. by apply (Hs st).
Qed.

(** X15.  Every URL in the visited set of a run is a URL as the filter
    returns them: it is not empty and [clean_url] maps it to itself. *)
Theorem visited_urls_are_canonical c b st :
  rtc (next c) (initial_state b) st ->
  forall u, u ∈ visited st -> u <> "" /\ clean_url u = Some u.
Proof.
  intros Hr. pattern st. revert st Hr. apply run_invariant; cbv beta.
  { intros u Hu. by apply not_elem_of_empty in Hu. }
  intros st st' IH Hit.
  apply iteration_cases in Hit as (url0 & q & u0 & _ & _ & Hc & Hcase).
  assert (Hadd : u0 <> "" -> forall u, u ∈ {[u0]} ∪ visited st ->
                   u <> "" /\ clean_url u = Some u).
  { intros Hne u [->%elem_of_singleton|Hu]%elem_of_union; [|by apply IH].
    split; [done|]. by apply (clean_url_fixed url0). }
  destruct Hcase as [[_ ->]|(Hne & Hv & [[_ ->]|(_ & [[_ ->]|(resp & q' & _ & _ & _ & ->)])])];
    simpl; auto.
Qed.

(** X16.  A run requests only URLs that the robots gate allows for the
    agent ["*"]; every URL in its visited set was either requested or
    turned down by the gate. *)
Theorem requests_respect_robots c b st :
  rtc (next c) (initial_state b) st ->
  (forall u, u ∈ fetched (trace st) ->
             Robotparser.can_fetch (rp c) "*" u = Some true)
  /\ (forall u, u ∈ visited st ->
                u ∈ fetched (trace st)
                \/ Robotparser.can_fetch (rp c) "*" u = Some false).
Proof.
  intros Hr. pattern st. revert st Hr. apply run_invariant; cbv beta.
  { split; intros u Hu; [by apply elem_of_nil in Hu|by apply not_elem_of_empty in Hu]. }
  intros st st' [IH1 IH2] Hit.
  apply iteration_cases in Hit as (url0 & q & u0 & _ & _ & Hc & Hcase).
  assert (Hadd : forall tr, fetched tr = [u0] ->
    Robotparser.can_fetch (rp c) "*" u0 = Some true ->
    (forall u, u ∈ fetched (trace st ++ tr) ->
               Robotparser.can_fetch (rp c) "*" u = Some true)
    /\ (forall u, u ∈ {[u0]} ∪ visited st ->
                  u ∈ fetched (trace st ++ tr)
                  \/ Robotparser.can_fetch (rp c) "*" u = Some false)).
  { intros tr Htr Ht. rewrite fetched_app, Htr. split.
    - intros u [?| ->%list_elem_of_singleton]%elem_of_app; auto.
    - intros u [->%elem_of_singleton|Hu]%elem_of_union.
      + left. apply elem_of_app. right. by left.
      + destruct (IH2 u Hu); [left|by right]. apply elem_of_app. by left. }
  destruct Hcase as [[_ ->]|(Hne & Hv & [[Hf ->]|(Ht & [[_ ->]|(resp & q' & _ & _ & _ & ->)])])];
    cbn [trace visited].
  - by split.
  - split; [exact IH1|].
    intros u [->%elem_of_singleton|Hu]%elem_of_union; [by right|auto].
  - by apply Hadd.
  - by apply Hadd.
Qed.

(** X17.  A run never leaves the base domain: every URL in its queue
    is the base URL or a filtered URL for which [same_domain] holds, and
    every URL in its visited set, so every URL it requests, is the
    filtered base URL or such a URL. *)
Theorem crawl_stays_in_scope c b st :
  rtc (next c) (initial_state b) st ->
  (forall x, x ∈ queue st -> x = b \/ in_scope (base_domain c) x)
  /\ (forall u, u ∈ visited st ->
                clean_url b = Some u \/ in_scope (base_domain c) u).
Proof.
  intros Hr. pattern st. revert st Hr. apply run_invariant; cbv beta.
  { split; [intros x ->%list_elem_of_singleton; by left|].
    intros u Hu. by apply not_elem_of_empty in Hu. }
  intros st st' [IH1 IH2] Hit.
  apply iteration_cases in Hit as (url0 & q & u0 & Hq & _ & Hc & Hcase).
  assert (Hq' : forall x, x ∈ q -> x = b \/ in_scope (base_domain c) x).
  { intros x Hx. apply IH1. rewrite Hq. by right. }
  assert (Hu0 : u0 <> "" -> clean_url b = Some u0 \/ in_scope (base_domain c) u0).
  { intros Hne. destruct (IH1 url0) as [->|(? & Hfix & Hs)]; [rewrite Hq; by left|by left|].
    right. rewrite Hfix in Hc. injection Hc as <-. done. }
  assert (Hadd : u0 <> "" -> forall u, u ∈ {[u0]} ∪ visited st ->
                   clean_url b = Some u \/ in_scope (base_domain c) u).
  { intros Hne u [->%elem_of_singleton|Hu]%elem_of_union; auto. }
  destruct Hcase as [[_ ->]|(Hne & Hv & [[_ ->]|(_ & [[_ ->]|(resp & q' & _ & _ & He & ->)])])];
    simpl; auto.
  split; [|auto]. intros x Hx.
  destruct (enqueue_links_scope _ _ _ _ _ _ _ _ He Hx) as [?|[? _]]; auto.
Qed.

Lemma sleeps_app tr1 tr2 : sleeps (tr1 ++ tr2) = sleeps tr1 + sleeps tr2.
Proof. unfold sleeps. by rewrite List.filter_app, length_app. Qed.

(** X18.  At the head of every iteration the run has made no more
    requests than there are URLs in the visited set, it has slept once
    for each record, and the URLs of the records are, in order, among
    the URLs requested. *)
Theorem requests_sleeps_records c b st :
  rtc (next c) (initial_state b) st ->
  length (fetched (trace st)) <= size (visited st)
  /\ sleeps (trace st) = length (results st)
  /\ map url (results st) `sublist_of` fetched (trace st).
Proof.
  intros Hr. pattern st. revert st Hr. apply run_invariant; cbv beta.
  { split; [simpl; lia|]. split; [done|]. done. }
  intros st st' (IH1 & IH2 & IH3) Hit.
  apply iteration_cases in Hit as (url0 & q & u0 & _ & _ & _ & Hcase).
  assert (Hsz : u0 ∉ visited st -> size ({[u0]} ∪ visited st) = S (size (visited st))).
  { intros Hv. rewrite size_union by set_solver. by rewrite size_singleton. }
  destruct Hcase as [[_ ->]|(Hne & Hv & [[_ ->]|(_ & [[_ ->]|(resp & q' & _ & _ & _ & ->)])])];
    simpl; rewrite ?fetched_app, ?sleeps_app, ?length_app, ?map_app, ?(Hsz Hv);
    simpl; (split; [lia|]); (split; [unfold sleeps in *; simpl; lia|]); try done.
  - by apply sublist_inserts_r.
  - by apply sublist_app.
Qed.

(** X19.  A run that returns stopped because the queue was empty or
    because the visited set had reached [max_pages]; with a [max_pages]
    of 0 or less the loop body never runs, so that nothing is requested
    and no row is returned. *)
Theorem crawl_loop_exit fuel c st0 st :
  crawl_loop fuel c st0 = Returned st ->
  (queue st = [] \/ (max_pages c <= Z.of_nat (size (visited st)))%Z)
  /\ ((max_pages c <= 0)%Z -> st = st0).
Proof.
  intros Hl. split.
  - apply crawl_loop_rtc in Hl as [_ He]. unfold iteration in He.
    destruct (queue st) as [|url0 q]; [by left|right].
    destruct (Z.of_nat _ <? _)%Z eqn:Elt; [|by apply Z.ltb_ge in Elt].
    exfalso. cbn [negb] in He.
    destruct (clean_url url0) as [u|]; [|done].
    destruct (_ || _); [done|]. destruct (Robotparser.can_fetch _ _ _) as [[|]|]; try done.
    destruct (session_get _ _) as [|resp]; [done|].
    destruct (negb _); [done|]. destruct (not_html _); [done|].
    destruct (extract_content _). by destruct (enqueue_links _ _ _ _ _) as [? [|]].
  - intros Hm. destruct fuel as [|fuel]; [done|]. simpl in Hl.
    assert (He : iteration c st0 = Exit).
    { unfold iteration. destruct (queue st0); [done|].
      assert (Hlt : (Z.of_nat (size (visited st0)) <? max_pages c)%Z = false)
        by (apply Z.ltb_ge; lia).
      by rewrite Hlt. }
    rewrite He in Hl. by injection Hl as <-.
Qed.

End Run.

(** ** Examples on the three-page site *)

Lemma save_csv_keeps_top_witness :
  save_csv_rows [row_low; row_high] 1 = [row_high]
  /\ (score (data row_low) <= score (data row_high))%Z.
Proof.
  destruct (save_csv_keeps_top [row_low; row_high] 1) as (_ & dropped & Hs & Hd).
  split; [reflexivity|].
  assert (E : dropped = [row_low]).
  { vm_compute in Hs. by injection Hs as <-. }
  apply Hd; [|rewrite E]; set_solver.
Defined.

(** the first step of the run over the three-page site *)
Lemma first_step_site_test :
  rtc (@next no_ipv6 site_test config_test)
    (initial_state "http://site.test/")
    (@next_state no_ipv6 site_test config_test (initial_state "http://site.test/")).
Proof. apply rtc_once. unfold next. vm_compute. reflexivity. Qed.

Lemma home_visited_site_test :
  "http://site.test/"
  ∈ visited (@next_state no_ipv6 site_test config_test
               (initial_state "http://site.test/")).
Proof. apply (bool_decide_unpack _). vm_compute. exact I. Qed.

Lemma visited_urls_are_canonical_witness :
  @clean_url no_ipv6 "http://site.test/" = Some "http://site.test/".
Proof.
  apply (@visited_urls_are_canonical no_ipv6 site_test config_test _ _
           first_step_site_test _ home_visited_site_test).
Defined.

Lemma requests_respect_robots_witness :
  Robotparser.can_fetch (rp config_test) "*" "http://site.test/" = Some true.
Proof.
  apply (proj1 (@requests_respect_robots no_ipv6 site_test config_test _ _
                  first_step_site_test)).
  vm_compute. by left.
Defined.

Lemma crawl_stays_in_scope_witness :
  @clean_url no_ipv6 "http://site.test/" = Some "http://site.test/"
  \/ @in_scope no_ipv6 "site.test" "http://site.test/".
Proof.
  apply (proj2 (@crawl_stays_in_scope no_ipv6 site_test config_test _ _
                  first_step_site_test) _ home_visited_site_test).
Defined.

Lemma requests_sleeps_records_witness :
  sleeps (trace (@next_state no_ipv6 site_test config_test
                   (initial_state "http://site.test/")))
  = length (results (@next_state no_ipv6 site_test config_test
                       (initial_state "http://site.test/"))).
Proof.
  apply (@requests_sleeps_records no_ipv6 site_test config_test _ _
           first_step_site_test).
Defined.

Lemma crawl_loop_exit_witness :
  queue (final_state (@crawl_loop no_ipv6 site_test 20 config_test
                        (initial_state "http://site.test/"))) = []
  \/ (5 <= Z.of_nat (size (visited (final_state
        (@crawl_loop no_ipv6 site_test 20 config_test
           (initial_state "http://site.test/"))))))%Z.
Proof.
  apply (proj1 (@crawl_loop_exit no_ipv6 site_test 20 config_test
                  (initial_state "http://site.test/") _
                  ltac:(vm_compute; reflexivity))).
Defined.

(** ** The frontier *)

Section Frontier.
Context `{Ipaddress} `{World}.

Lemma enqueue_links_appends bd vis page_url hrefs q q' ok :
  enqueue_links bd vis page_url hrefs q = (q', ok) ->
  exists added, q' = q ++ added
                /\ forall x, x ∈ added -> in_scope bd x /\ x ∉ vis.
Proof.
  revert q q' ok. induction hrefs as [|a rest IH]; intros q q' ok; simpl.
  { intros [= <- <-]. exists []. split; [by rewrite app_nil_r|].
    intros x Hx. by apply elem_of_nil in Hx. }
  assert (Hstop : forall ok', (q, ok') = (q', ok) ->
    exists added, q' = q ++ added
                  /\ forall x, x ∈ added -> in_scope bd x /\ x ∉ vis).
  { intros ok' [= <- <-]. exists []. split; [by rewrite app_nil_r|].
    intros x Hx. by apply elem_of_nil in Hx. }
  destruct (urljoin page_url a) as [joined|]; [|by apply Hstop].
  destruct (clean_url joined) as [href|] eqn:Hc; [|by apply Hstop].
  destruct (String.eqb href "") eqn:Ee; [by apply IH|].
  destruct (same_domain href bd) as [[|]|] eqn:Hs;
    [|by apply IH|by apply Hstop].
  destruct (bool_decide (href ∈ vis)) eqn:Ed; [by apply IH|].
  intros He. destruct (IH _ _ _ He) as (added & -> & Ha).
  exists (href :: added). split; [by rewrite <- app_assoc|].
  intros x [->|Hx]%elem_of_cons; [|by apply Ha].
  apply String.eqb_neq in Ee. apply bool_decide_eq_false in Ed.
  split; [|done]. split; [done|]. split; [|done]. by apply (clean_url_fixed joined).
Qed.

(** X20.  The queue is first-in first-out: an iteration takes the URL
    at the head of the queue and leaves the rest in place, putting new
    links behind it.  New links come only from a page that was recorded,
    and each of them is a filtered URL of the base domain that was not
    in the visited set when the page was read. *)
Theorem queue_is_fifo c st st' :
  iteration c st = Continue st' ->
  exists url0 rest added,
    queue st = url0 :: rest
    /\ queue st' = rest ++ added
    /\ (results st' = results st -> added = [])
    /\ forall x, x ∈ added -> in_scope (base_domain c) x /\ x ∉ visited st.
Proof.
  intros Hit.
  apply iteration_cases in Hit as (url0 & q & u0 & Hq & _ & _ & Hcase).
  exists url0, q.
  assert (Hnone : exists added : list string,
            q = q ++ added /\ (results st = results st -> added = [])
            /\ forall x, x ∈ added -> in_scope (base_domain c) x /\ x ∉ visited st).
  { exists []. split; [by rewrite app_nil_r|]. split; [done|].
    intros x Hx. by apply elem_of_nil in Hx. }
  destruct Hcase as [[_ ->]|(Hne & Hv & [[_ ->]|(_ & [[_ ->]|(resp & q' & _ & _ & He & ->)])])];
    cbn [queue results];
    try (destruct Hnone as (added & ? & ? & ?); by exists added).
  destruct (enqueue_links_appends _ _ _ _ _ _ _ He) as (added & -> & Ha).
  exists added. do 2 (split; [done|]). split; [|done].
  intros E. apply (f_equal length) in E. rewrite length_app in E. simpl in E. lia.
Qed.

End Frontier.

Lemma queue_is_fifo_witness :
  exists added,
    queue (@next_state no_ipv6 site_test config_test (initial_state "http://site.test/"))
    = [] ++ added.
Proof.
  destruct (@queue_is_fifo no_ipv6 site_test config_test
              (initial_state "http://site.test/")
              (@next_state no_ipv6 site_test config_test
                 (initial_state "http://site.test/"))
              ltac:(vm_compute; reflexivity))
    as (url0 & rest & added & Hq & Hq' & _).
  exists added. injection Hq as _ <-. exact Hq'.
Defined.

(** ** The fragment and the key of a URL *)

Lemma lstrip_app_stop p u c t :
  p c = false -> lstrip p (u +:+ String c t) = lstrip p u +:+ String c t.
Proof.
  intros Hc. induction u as [|d u IH]; simpl; [by rewrite Hc|].
  by destruct (p d).
Qed.

Lemma remove_chars_app p a b :
  remove_chars p (a +:+ b) = remove_chars p a +:+ remove_chars p b.
Proof.
  induction a as [|c a IH]; [done|]. simpl. destruct (p c); [done|].
  by rewrite IH.
Qed.

Lemma contains_lstrip p c u : contains c u = false -> contains c (lstrip p u) = false.
Proof.
  induction u as [|d u IH]; [done|]. simpl. destruct (p d); [|done].
  intros [_ Hu]%orb_false_iff. by apply IH.
Qed.

Lemma contains_remove_chars p c u :
  contains c u = false -> contains c (remove_chars p u) = false.
Proof.
  induction u as [|d u IH]; [done|]. simpl.
  intros [Hd Hu]%orb_false_iff. destruct (p d); [by apply IH|].
  simpl. by rewrite Hd, IH.
Qed.

Lemma partition_app_absent c x y :
  contains c x = false ->
  partition c (x +:+ y)
  = match partition c y with
    | (a, true, b) => (x +:+ a, true, b)
    | (_, false, _) => (x +:+ y, false, "")
    end.
Proof.
  induction x as [|d x IH].
  - intros _. change ("" +:+ y) with y.
    destruct (partition c y) as [[a [|]] b] eqn:E; [done|].
    by apply partition_missing in E as (-> & -> & _).
  - simpl. intros [Hd Hx]%orb_false_iff. rewrite Hd, (IH Hx).
    by destruct (partition c y) as [[a [|]] b].
Qed.

Lemma scheme_stage_none v : contains ":" v = false -> scheme_stage v = ("", v).
Proof.
  intros Hc. unfold scheme_stage. rewrite (partition_none ":" v Hc).
  by destruct v.
Qed.

Lemma partition_hash_colon f a b :
  partition ":" (String "#" f) = (a, true, b) -> exists a1, a = String "#" a1.
Proof.
  simpl. change (Ascii.eqb ":" "#") with false. cbv iota.
  destruct (partition ":" f) as [[a1 [|]] b1]; [|done].
  intros [= <- _]. by eexists.
Qed.

Lemma scheme_stage_fragment v f :
  contains "#" v = false ->
  scheme_stage (v +:+ String "#" f)
  = ((scheme_stage v).1, (scheme_stage v).2 +:+ String "#" f)
  /\ contains "#" (scheme_stage v).2 = false.
Proof.
  intros Hv. destruct (partition ":" v) as [[a [|]] b] eqn:Ep.
  - unfold scheme_stage. rewrite Ep.
    apply partition_found in Ep as [-> Ha].
    rewrite contains_app in Hv. cbn [contains] in Hv. bsplit.
    rewrite app_assoc', app_cons, (partition_app ":" a _ Ha).
    destruct a as [|c0 pre]; cbn [fst snd].
    + split; [reflexivity|]. cbn [contains]. bgoal.
    + destruct (_ && _ && _); cbn [fst snd]; [by split|].
      split; [by rewrite app_assoc'|]. rewrite contains_app.
      cbn [contains] in *. bsplit. bgoal.
  - apply partition_missing in Ep as (_ & _ & Hc).
    rewrite (scheme_stage_none v Hc). cbn [fst snd]. split; [|done].
    unfold scheme_stage. rewrite (partition_app_absent ":" v _ Hc).
    destruct (partition ":" (String "#" f)) as [[a2 [|]] b2] eqn:Ef; cycle 1.
    { by destruct (v +:+ String "#" f). }
    destruct (partition_hash_colon _ _ _ Ef) as [a1 ->].
    destruct (v +:+ String "#" a1) as [|c0 pre] eqn:Ev; [done|].
    assert (Hall : all_chars scheme_chars (String c0 pre) = false).
    { rewrite <- Ev, all_chars_app. cbn [all_chars].
      change (scheme_chars "#") with false. by rewrite andb_false_r. }
    rewrite Hall. by rewrite andb_false_r.
Qed.

Lemma startswith_slashes_fragment w f :
  contains "#" w = false ->
  startswith "//" (w +:+ String "#" f) = startswith "//" w
  /\ (startswith "//" w = true ->
      drop 2 (w +:+ String "#" f) = drop 2 w +:+ String "#" f).
Proof.
  intros _. destruct w as [|c [|d w]].
  - split; [reflexivity|]. intros Hx. exfalso. vm_compute in Hx. discriminate.
  - assert (E : startswith "//" (String c "") = false).
    { simpl. by rewrite andb_false_r. }
    rewrite E. split; [|done].
    change (startswith "//" (String c "" +:+ String "#" f))
      with (Ascii.eqb "/" c && (Ascii.eqb "/" "#" && true)).
    change (Ascii.eqb "/" "#") with false. by rewrite andb_false_r.
  - split; reflexivity.
Qed.

Section Fragment.
Context `{Ipaddress}.

Lemma netloc_stage_fragment w f :
  contains "#" w = false ->
  netloc_stage (w +:+ String "#" f)
  = match netloc_stage w with
    | Some (n, rest) => Some (n, rest +:+ String "#" f)
    | None => None
    end
  /\ (forall n rest, netloc_stage w = Some (n, rest) -> contains "#" rest = false).
Proof.
  intros Hw. unfold netloc_stage.
  destruct (startswith_slashes_fragment w f Hw) as [-> Hd].
  destruct (startswith "//" w) eqn:Es; cycle 1.
  { split; [done|]. by intros n rest [= <- <-]. }
  rewrite (Hd eq_refl).
  assert (Hw2 : contains "#" (drop 2 w) = false).
  { destruct w as [|c [|d w]]; simpl in *; try done. bsplit. done. }
  destruct (_splitnetloc (drop 2 w)) as [n rest] eqn:En.
  apply splitnetloc_spec in En as (E2 & Hn & Hdel).
  rewrite E2, contains_app in Hw2. bsplit.
  rewrite E2, app_assoc', splitnetloc_app; [|done|].
  - split; [by destruct (brackets_ok n)|].
    intros n' rest'. destruct (brackets_ok n); [|done]. by intros [= <- <-].
  - destruct rest; [done|]. exact Hdel.
Qed.

Lemma tail_stage_fragment sch n rest f :
  contains "#" rest = false ->
  tail_stage sch n (rest +:+ String "#" f)
  = mkSplit sch n (s_url (tail_stage sch n rest))
      (s_query (tail_stage sch n rest)) f.
Proof.
  intros Hr. unfold tail_stage.
  rewrite (partition_app "#" rest f Hr), (partition_none "#" rest Hr).
  by destruct (partition "?" rest) as [[a [|]] b].
Qed.

Lemma urlsplit_stages u :
  urlsplit u
  = (let v := remove_chars UNSAFE_URL_BYTES_TO_REMOVE
                (lstrip WHATWG_C0_CONTROL_OR_SPACE u) in
     match netloc_stage (scheme_stage v).2 with
     | Some (n, rest) => Some (tail_stage (scheme_stage v).1 n rest)
     | None => None
     end).
Proof.
  unfold urlsplit, scheme_stage, netloc_stage, tail_stage. cbv zeta.
  destruct (match partition ":" _ with (String _ _, true, _) => _ | _ => _ end)
    as [sch w].
  cbn [fst snd]. destruct (if startswith "//" w then _ else _) as [[n rest]|]; [|done].
  destruct (match partition "#" rest with (_, true, _) => _ | _ => _ end) as [url fr].
  by destruct (match partition "?" url with (_, true, _) => _ | _ => _ end).
Qed.

(** X21.  The filter does not look at the fragment: a URL without
    ['#'] and the same URL followed by ['#'] and any fragment are
    filtered to the same result, so that links which differ in their
    fragment only share one key in the visited set. *)
Theorem clean_url_ignores_fragment u f :
  contains "#" u = false ->
  clean_url (u +:+ String "#" f) = clean_url u.
Proof.
  intros Hu.
  set (v := remove_chars UNSAFE_URL_BYTES_TO_REMOVE
              (lstrip WHATWG_C0_CONTROL_OR_SPACE u)).
  set (f' := remove_chars UNSAFE_URL_BYTES_TO_REMOVE f).
  assert (Hv : contains "#" v = false)
    by (by apply contains_remove_chars, contains_lstrip).
  assert (Hs : urlsplit (u +:+ String "#" f)
               = match urlsplit u with
                 | Some r => Some (mkSplit (s_scheme r) (s_netloc r) (s_url r)
                                     (s_query r) f')
                 | None => None
                 end).
  { rewrite !urlsplit_stages. cbv zeta.
    rewrite lstrip_app_stop by reflexivity. rewrite remove_chars_app.
    change (remove_chars UNSAFE_URL_BYTES_TO_REMOVE (String "#" f))
      with (String "#" f').
    fold v.
    destruct (scheme_stage_fragment v f' Hv) as [-> Hw]. cbn [fst snd].
    destruct (netloc_stage_fragment (scheme_stage v).2 f' Hw) as [-> Hrest].
    destruct (netloc_stage (scheme_stage v).2) as [[n rest]|]; [|done].
    rewrite (tail_stage_fragment _ _ _ _ (Hrest _ _ eq_refl)).
    unfold tail_stage. destruct (match partition "#" rest with (_, true, _) => _ | _ => _ end).
    by destruct (match partition "?" _ with (_, true, _) => _ | _ => _ end). }
  unfold clean_url, urlparse. rewrite Hs.
  destruct (urlsplit u) as [r|]; [|done].
  cbn [s_scheme s_netloc s_url s_query s_fragment].
  destruct (if _ && _ then _splitparams _ else _) as [pa pr].
  reflexivity.
Qed.

End Fragment.

Lemma clean_url_ignores_fragment_witness :
  @clean_url no_ipv6 "http://a.co/x#top" = @clean_url no_ipv6 "http://a.co/x".
Proof.
  apply (@clean_url_ignores_fragment no_ipv6 "http://a.co/x" "top"). reflexivity.
Defined.
